(** * gita-query: retrieval and cited-answer assembly

    A shallow embedding of the core of the Bhagavad Gita chatbot
    ([rag/utils.py], [rag/retriever.py], [rag/answer.py]) together with
    the properties its specification states about it.

    Conventions of the embedding.
    - A Python [str] is a [list ascii]; an [ascii] stands for the code
      point of the same number, so the strings covered are those over
      U+0000..U+00FF.  On that range the character classes used by the
      code ([str.isspace] and the regex class [\s], the regex class [\d],
      the blanks that [int] skips, [str.lower]) are rendered exactly.
    - Python integers are [Z]; similarity scores, which the code only
      copies and compares, are rationals [Q] (every finite float is one;
      not-a-number scores are outside the model).
    - A raised exception is a value [Raise e] of the [result] type; a
      [try]/[except] is the [catch] combinator.
    - The embedding model, the vector index and the three generation
      back ends live outside the repository; they enter as section
      variables. *)

From Stdlib Require Import String Ascii List ZArith QArith Lia Bool Arith.
From Stdlib Require Import DecimalString DecimalPos Sorted.
From Equations Require Import Equations.
Import ListNotations.

Close Scope Q_scope.
Set Implicit Arguments.

(** * The program *)

(** ** Python primitives *)

Module Py.

Definition str := list ascii.

(** String literals of the source are written [lit "..."]. *)
Definition lit (s : string) : str := list_ascii_of_string s.

Definition code (c : ascii) : N := N_of_ascii c.

Definition NL : ascii := ascii_of_N 10.

Definition str_eq_dec : forall a b : str, {a = b} + {a <> b} :=
  list_eq_dec ascii_dec.

Definition str_eqb (a b : str) : bool :=
  if str_eq_dec a b then true else false.

(** [str.isspace] on one character, which is also the regex class [\s]:
    U+0009..U+000D, U+001C..U+0020, U+0085 and U+00A0. *)
Definition isspace (c : ascii) : bool :=
  let n := code c in
  (((9 <=? n) && (n <=? 13)) || ((28 <=? n) && (n <=? 32))
   || (n =? 133) || (n =? 160))%N.

(** The regex class [\d]: below U+0100 the decimal digits are 0..9. *)
Definition isdigit (c : ascii) : bool :=
  let n := code c in ((48 <=? n) && (n <=? 57))%N.

Definition digit_val (c : ascii) : Z := Z.of_N (code c) - 48.

(** [str.lower] on one character: A..Z, and the upper-case letters of
    U+00C0..U+00DE (all but the multiplication sign U+00D7). *)
Definition lower_char (c : ascii) : ascii :=
  let n := code c in
  if (((65 <=? n) && (n <=? 90))
      || ((192 <=? n) && (n <=? 222) && negb (n =? 215)))%N
  then ascii_of_N (n + 32) else c.

Definition lower (s : str) : str := map lower_char s.

(** [str.lstrip], [str.rstrip] and [str.strip] over a character class. *)
Fixpoint lstrip_by (p : ascii -> bool) (s : str) : str :=
  match s with
  | [] => []
  | c :: s' => if p c then lstrip_by p s' else s
  end.

Definition rstrip_by (p : ascii -> bool) (s : str) : str :=
  rev (lstrip_by p (rev s)).

Definition strip_by (p : ascii -> bool) (s : str) : str :=
  rstrip_by p (lstrip_by p s).

(** [s.strip()] *)
Definition strip (s : str) : str := strip_by isspace s.

(** [s.strip(chars)] *)
Definition strip_chars (chars : str) (s : str) : str :=
  strip_by (fun c => if in_dec ascii_dec c chars then true else false) s.

(** Splitting at every character of a class, empty pieces kept:
    [s.split('.')] is [split_at (Ascii.eqb ".") s]. *)
Fixpoint split_at (p : ascii -> bool) (s : str) : list str :=
  match s with
  | [] => [[]]
  | c :: s' =>
      if p c then [] :: split_at p s'
      else match split_at p s' with
           | w :: ws => (c :: w) :: ws
           | [] => [[c]]
           end
  end.

(** [re.split] on one or more characters of a class, such as
    [re.split(r'[.!?]+', s)]: a maximal run of separators splits once.
    [insep] records that the previous character was a separator. *)
Fixpoint re_split_runs (p : ascii -> bool) (insep : bool) (s : str)
  : list str :=
  match s with
  | [] => [[]]
  | c :: s' =>
      if p c then
        if insep then re_split_runs p true s'
        else [] :: re_split_runs p true s'
      else match re_split_runs p false s' with
           | w :: ws => (c :: w) :: ws
           | [] => [[c]]
           end
  end.

Definition re_split (p : ascii -> bool) (s : str) : list str :=
  re_split_runs p false s.

(** [s.split()]: the maximal runs of non-blank characters. *)
Fixpoint split_ws_from (cur : str) (s : str) : list str :=
  match s with
  | [] => match cur with [] => [] | _ => [rev cur] end
  | c :: s' =>
      if isspace c then
        match cur with
        | [] => split_ws_from [] s'
        | _ => rev cur :: split_ws_from [] s'
        end
      else split_ws_from (c :: cur) s'
  end.

Definition split_ws (s : str) : list str := split_ws_from [] s.

(** [re.sub(r'\s+', ' ', s)]: every maximal run of blanks becomes one
    space.  [inrun] records that the previous character was a blank. *)
Fixpoint sub_ws_runs (inrun : bool) (s : str) : str :=
  match s with
  | [] => []
  | c :: s' =>
      if isspace c then
        if inrun then sub_ws_runs true s'
        else " "%char :: sub_ws_runs true s'
      else c :: sub_ws_runs false s'
  end.

(** [sep.join(parts)] *)
Fixpoint join (sep : str) (parts : list str) : str :=
  match parts with
  | [] => []
  | [w] => w
  | w :: ws => w ++ sep ++ join sep ws
  end.

(** [sub in s] on strings. *)
Fixpoint startswith (sub s : str) : bool :=
  match sub, s with
  | [], _ => true
  | _ :: _, [] => false
  | a :: sub', b :: s' => Ascii.eqb a b && startswith sub' s'
  end.

Fixpoint contains (sub s : str) : bool :=
  startswith sub s
  || match s with
     | [] => false
     | _ :: s' => contains sub s'
     end.

(** [str(n)] for an integer, as an f-string renders it. *)
Definition str_of_int (n : Z) : str :=
  list_ascii_of_string (NilZero.string_of_int (Z.to_int n)).

(** Exceptions and results. *)
Inductive exn := ValueError | IndexError | KeyError.

Inductive result (A : Type) :=
| Ok (a : A)
| Raise (e : exn).
Arguments Raise {A} e.

Definition bind {A B} (r : result A) (k : A -> result B) : result B :=
  match r with
  | Ok a => k a
  | Raise e => Raise e
  end.

(** [try: body except (handled...): handler] *)
Definition catch {A} (body : result A) (handled : exn -> bool)
  (handler : result A) : result A :=
  match body with
  | Ok a => Ok a
  | Raise e => if handled e then handler else Raise e
  end.

(** The blanks that [int] skips around a number.  The parser itself
    skips U+0009..U+000D and U+0020 only; before it runs, the blanks
    above U+007F (here U+0085 and U+00A0) are turned into spaces.  The
    separators U+001C..U+001F, which [str.isspace] accepts, are left as
    they are, and [int] rejects them. *)
Definition int_blank (c : ascii) : bool :=
  let n := code c in
  (((9 <=? n) && (n <=? 13)) || (n =? 32) || (n =? 133) || (n =? 160))%N.

(** [int(s)] in base ten: the blanks of [int_blank] around the number
    are dropped, one sign is allowed, digits may be grouped by single
    underscores.  (The cap that recent interpreters put on the number of
    digits is left out; a string over the cap raises [ValueError] there,
    like any other unreadable one.) *)
Fixpoint int_digits (acc : Z) (after_us : bool) (s : str) : option Z :=
  match s with
  | [] => if after_us then None else Some acc
  | c :: s' =>
      if isdigit c then int_digits (10 * acc + digit_val c) false s'
      else if Ascii.eqb c "_" then
             if after_us then None else int_digits acc true s'
           else None
  end.

Definition int_unsigned (s : str) : option Z :=
  match s with
  | c :: _ => if isdigit c then int_digits 0 false s else None
  | [] => None
  end.

Definition int_of_str (s : str) : result Z :=
  let t := strip_by int_blank s in
  let parsed :=
    match t with
    | c :: t' =>
        if Ascii.eqb c "-" then option_map Z.opp (int_unsigned t')
        else if Ascii.eqb c "+" then int_unsigned t'
        else int_unsigned t
    | [] => None
    end in
  match parsed with
  | Some n => Ok n
  | None => Raise ValueError
  end.

(** [l[i]] on a list: a negative index counts from the end. *)
Definition getitem {A} (l : list A) (i : Z) : result A :=
  let n := Z.of_nat (length l) in
  let j := if (i <? 0)%Z then (n + i)%Z else i in
  if ((0 <=? j) && (j <? n))%Z then
    match nth_error l (Z.to_nat j) with
    | Some a => Ok a
    | None => Raise IndexError
    end
  else Raise IndexError.

(** [l[lo:hi]] with non-negative bounds, and [l[:k]] for any integer. *)
Definition slice {A} (l : list A) (lo hi : nat) : list A :=
  firstn (hi - lo) (skipn lo l).

Definition slice_to {A} (l : list A) (k : Z) : list A :=
  if (k <? 0)%Z then firstn (Z.to_nat (Z.of_nat (length l) + k)) l
  else firstn (Z.to_nat k) l.

(** A set built from a list and listed again: its distinct elements. *)
Definition set_of (l : list str) : list str := nodup str_eq_dec l.

Definition mem (x : str) (l : list str) : bool :=
  if in_dec str_eq_dec x l then true else false.

(** [a.intersection(b)] and [a - b] on sets of strings. *)
Definition set_inter (a b : list str) : list str :=
  filter (fun x => mem x b) a.

Definition set_diff (a b : list str) : list str :=
  filter (fun x => negb (mem x b)) a.

End Py.

Import Py.

(** ** rag/utils.py *)

Module Utils.

(** [build_citation]: [f"[{chapter}.{verse}]"]. *)
Definition build_citation (chapter verse : Z) : str :=
  lit "[" ++ str_of_int chapter ++ lit "." ++ str_of_int verse ++ lit "]".

(** The fixed pattern [\[(\d+)\.(\d+)\]] of [extract_citations_from_text].

    [span p s] is the longest prefix of [s] inside the class [p], with
    what follows it.  A greedy [\d+] takes exactly that prefix: the
    pattern goes on with a character that is no digit, so giving digits
    back can never help. *)
Fixpoint span (p : ascii -> bool) (s : str) : str * str :=
  match s with
  | [] => ([], [])
  | c :: s' =>
      if p c then let (a, b) := span p s' in (c :: a, b)
      else ([], s)
  end.

(** A match of the pattern at the head of [s]: the two groups and the
    number of characters matched. *)
Definition match_citation (s : str) : option (str * str * nat) :=
  match s with
  | c :: s1 =>
      if Ascii.eqb c "[" then
        match span isdigit s1 with
        | ((_ :: _) as g1, d :: s2) =>
            if Ascii.eqb d "." then
              match span isdigit s2 with
              | ((_ :: _) as g2, e :: _) =>
                  if Ascii.eqb e "]"
                  then Some (g1, g2, 3 + length g1 + length g2)
                  else None
              | _ => None
              end
            else None
        | _ => None
        end
      else None
  | [] => None
  end.

(** [re.findall(pattern, text)]: scan from the left; after a match go on
    behind it, otherwise move one character on. *)
Equations? findall_citations (s : str) : list (str * str)
  by wf (length s) lt :=
  findall_citations [] := [];
  findall_citations (c :: s') with match_citation (c :: s') := {
    | Some (g1, g2, n) := (g1, g2) :: findall_citations (skipn (n - 1) s');
    | None := findall_citations s' }.
Proof.
  all: simpl; try rewrite length_skipn; lia.
Qed.

(** [extract_citations_from_text] *)
Definition extract_citations_from_text (text : str) : list str :=
  map (fun m => lit "[" ++ fst m ++ lit "." ++ snd m ++ lit "]")
      (findall_citations text).

(** The keyword tables of [safety_check]. *)
Definition medical_keywords : list str :=
  map lit ["medical"; "medicine"; "doctor"; "treatment"; "diagnosis";
           "symptoms"; "prescription"; "drug"; "therapy"; "cure";
           "illness"; "disease"]%string.

Definition legal_keywords : list str :=
  map lit ["legal"; "lawyer"; "court"; "lawsuit"; "legal advice";
           "attorney"; "litigation"; "contract"; "legal opinion";
           "jurisdiction"]%string.

(** [safety_check]: the loop returns [False] at the first keyword found
    in the lower-cased query, [True] when it runs to its end. *)
Fixpoint safety_scan (keywords : list str) (query_lower : str) : bool :=
  match keywords with
  | [] => true
  | keyword :: rest =>
      if contains keyword query_lower then false
      else safety_scan rest query_lower
  end.

Definition safety_check (query : str) : bool :=
  let query_lower := lower query in
  safety_scan (medical_keywords ++ legal_keywords) query_lower.

(** The class [[^\x20-\x7E\n]] that [clean_text] deletes. *)
Definition non_printable (c : ascii) : bool :=
  let n := code c in
  negb ((((32 <=? n) && (n <=? 126)) || (n =? 10))%N).

(** [clean_text] *)
Definition clean_text (text : str) : str :=
  match text with
  | [] => []
  | _ =>
      let text1 := sub_ws_runs false (strip text) in
      filter (fun c => negb (non_printable c)) text1
  end.

End Utils.

Import Utils.

(** ** rag/retriever.py *)

Module Retriever.

(** A verse record of the corpus ([self.docs]). *)
Record Doc := {
  doc_id : str;
  doc_chapter : Z;
  doc_verse : Z;
  doc_text : str;
  doc_sanskrit : option str
}.

(** A search result: the display fields of a verse, a score and a rank. *)
Record SearchResult := {
  id : str;
  chapter : Z;
  verse : Z;
  text : str;
  sanskrit : option str;
  score : Q;
  rank : Z
}.

(** The bundle returned by [search_best_answer]. *)
Record BestAnswer := {
  best_verse : SearchResult;
  context_verses : list SearchResult;
  total_matches : nat;
  confidence : Q
}.

(** One entry of the report of [validate_citations]. *)
Record Validation := {
  citation : str;
  exists_ : bool;
  verse_data : option SearchResult
}.

Definition result_of (doc : Doc) (s : Q) (r : Z) : SearchResult :=
  {| id := doc_id doc; chapter := doc_chapter doc; verse := doc_verse doc;
     text := doc_text doc; sanskrit := doc_sanskrit doc;
     score := s; rank := r |}.

(** The score floor of [search] and its test [score < 0.1]. *)
Definition score_floor : Q := (1 # 10)%Q.

Definition below_floor (s : Q) : bool := negb (Qle_bool score_floor s).

Section Index.

(** [docs] is [self.docs].  [nearest query] stands for the pairs
    [zip(scores[0], indices[0])] that the index returns for the encoded
    and normalised query when asked for all [ntotal] vectors. *)
Variable docs : list Doc.
Variable nearest : str -> list (Q * Z).

(** The loop of [search] over the hits, [i] being the position given by
    [enumerate]. *)
Fixpoint search_loop (i : Z) (hits : list (Q * Z))
  : result (list SearchResult) :=
  match hits with
  | [] => Ok []
  | (s, idx) :: rest =>
      if (idx =? -1)%Z then search_loop (i + 1) rest
      else if below_floor s then search_loop (i + 1) rest
      else
        bind (getitem docs idx) (fun doc =>
        bind (search_loop (i + 1) rest) (fun results =>
        Ok (result_of doc s (i + 1) :: results)))
  end.

(** [search] *)
Definition search (query : str) (k : option Z)
  : result (list SearchResult) :=
  match strip query with
  | [] => Ok []
  | _ =>
      bind (search_loop 0 (nearest query)) (fun results =>
      Ok (match k with
          | Some k => slice_to results k
          | None => results
          end))
  end.

(** [search_best_answer]; [None] is the empty sentinel. *)
Definition search_best_answer (query : str) : result (option BestAnswer) :=
  match strip query with
  | [] => Ok None
  | _ =>
      bind (search query None) (fun all_results =>
      match all_results with
      | [] => Ok None
      | best_match :: _ =>
          let context :=
            if 1 <? length all_results then slice all_results 1 5
            else [] in
          Ok (Some {| best_verse := best_match;
                      context_verses := context;
                      total_matches := length all_results;
                      confidence := score best_match |})
      end)
  end.

(** The scan of [get_verse_by_citation]. *)
Fixpoint scan_docs (ds : list Doc) (c v : Z) : option SearchResult :=
  match ds with
  | [] => None
  | doc :: rest =>
      if ((doc_chapter doc =? c) && (doc_verse doc =? v))%Z
      then Some (result_of doc 1 1)
      else scan_docs rest c v
  end.

(** [get_verse_by_citation]; [None] is the not-found sentinel. *)
Definition get_verse_by_citation (c v : Z) : option SearchResult :=
  scan_docs docs c v.

(** The two lines that parse a citation:
    [chapter_verse = citation.strip('[]')] and
    [chapter, verse = map(int, chapter_verse.split('.'))].
    Unpacking anything but two values raises [ValueError], as does
    [int] on a part it cannot read. *)
Definition parse_citation (cit : str) : result (Z * Z) :=
  let chapter_verse := strip_chars (lit "[]") cit in
  match split_at (Ascii.eqb ".") chapter_verse with
  | [a; b] =>
      bind (int_of_str a) (fun c =>
      bind (int_of_str b) (fun v => Ok (c, v)))
  | _ => Raise ValueError
  end.

(** The body of the loop of [validate_citations], with its handler. *)
Definition validate_one (cit : str) : result Validation :=
  catch
    (bind (parse_citation cit) (fun cv =>
     let data := get_verse_by_citation (fst cv) (snd cv) in
     Ok {| citation := cit;
           exists_ := match data with Some _ => true | None => false end;
           verse_data := data |}))
    (fun e => match e with
              | ValueError | IndexError => true
              | _ => false
              end)
    (Ok {| citation := cit; exists_ := false; verse_data := None |}).

(** [validate_citations] *)
Fixpoint validate_citations (citations : list str)
  : result (list Validation) :=
  match citations with
  | [] => Ok []
  | cit :: rest =>
      bind (validate_one cit) (fun r =>
      bind (validate_citations rest) (fun rs => Ok (r :: rs)))
  end.

End Index.

End Retriever.

Import Retriever.

(** ** rag/answer.py *)

Module Answer.

Definition no_verses_message : str :=
  lit "I couldn't find relevant verses in the Bhagavad Gita to answer your question.".

Definition cite (p : SearchResult) : str :=
  build_citation (chapter p) (verse p).

(** The class [[.!?]] on which [extractive_answer] splits the verse. *)
Definition sentence_end (c : ascii) : bool :=
  Ascii.eqb c "." || Ascii.eqb c "!" || Ascii.eqb c "?".

(** [len(query_words.intersection(sentence_words))] *)
Definition sentence_score (query_words : list str) (sentence : str) : nat :=
  let sentence_words := set_of (split_ws (lower sentence)) in
  length (set_inter query_words sentence_words).

(** One turn of the loop over the sentences; the state is
    [(best_sentence, best_score)]. *)
Definition scan_sentence (query_words : list str) (st : str * nat)
  (sentence : str) : str * nat :=
  let sentence := strip sentence in
  if length sentence <? 20 then st
  else
    let score := sentence_score query_words sentence in
    if snd st <? score then (sentence, score) else st.

(** [extractive_answer] *)
Definition extractive_answer (query : str) (passages : list SearchResult)
  : str :=
  match passages with
  | [] => no_verses_message
  | best_passage :: _ =>
      let best_citation := cite best_passage in
      let verse_text := text best_passage in
      let query_words := set_of (split_ws (lower query)) in
      let sentences := re_split sentence_end verse_text in
      let found :=
        fst (fold_left (scan_sentence query_words) sentences ([], 0)) in
      let best_sentence :=
        match found with
        | [] => hd [] (split_at (Ascii.eqb ".") verse_text) ++ lit "."
        | _ => found
        end in
      let answer :=
        lit "The Bhagavad Gita teaches: " ++ best_sentence ++ lit " "
        ++ best_citation in
      if 1 <? length passages then
        let context_verses := slice passages 1 3 in
        let context_citations := map cite context_verses in
        answer ++ [NL; NL] ++ lit "Related guidance: "
        ++ join (lit ", ") context_citations
      else answer
  end.

(** The context block handed to a generation back end. *)
Definition context_of (passages : list SearchResult) : str :=
  join [NL; NL] (map (fun p => cite p ++ lit " " ++ text p) passages).

Section Backends.

(** The three generation back ends, each a function of the query and the
    context that returns the generated text or [None]; they catch their
    own errors. *)
Variables generate_answer_gemini generate_answer_openai
          generate_answer_ollama : str -> str -> option str.

(** [if answer: return answer], else go on to [otherwise]. *)
Definition answer_or (answer : option str) (otherwise : str) : str :=
  match answer with
  | Some (c :: a) => c :: a
  | _ => otherwise
  end.

(** [generate_answer] *)
Definition generate_answer (query : str) (passages : list SearchResult)
  (model_type : str) : str :=
  match passages with
  | [] => no_verses_message
  | _ =>
      let context := context_of passages in
      let fallback := extractive_answer query passages in
      if str_eqb model_type (lit "gemini") then
        answer_or (generate_answer_gemini query context) fallback
      else if str_eqb model_type (lit "openai") then
        answer_or (generate_answer_openai query context) fallback
      else if str_eqb model_type (lit "ollama") then
        answer_or (generate_answer_ollama query context) fallback
      else fallback
  end.

End Backends.

(** The report of [validate_answer]. *)
Record AnswerValidation := {
  valid : bool;
  invalid_citations : list str;
  answer_citations : list str;
  passage_citations : list str
}.

(** [validate_answer] *)
Definition validate_answer (answer : str) (passages : list SearchResult)
  : AnswerValidation :=
  let answer_cits := set_of (extract_citations_from_text answer) in
  let passage_cits := set_of (map cite passages) in
  let invalid := set_diff answer_cits passage_cits in
  {| valid := length invalid =? 0;
     invalid_citations := invalid;
     answer_citations := answer_cits;
     passage_citations := passage_cits |}.

End Answer.

Import Answer.

(** ** rag/utils.py: records of the dataset *)

Module Schema.

(** A Python [dict] with string keys, as the list of its items in
    insertion order; [get] is [d.get(k)], and [k in d] is [get d k]
    being [Some]. *)
Definition dict (V : Type) : Type := list (str * V).

Fixpoint get {V} (d : dict V) (k : str) : option V :=
  match d with
  | [] => None
  | (k', v) :: rest => if str_eqb k' k then Some v else get rest k
  end.

(** The table [field_mappings] of [normalize_schema]. *)
Definition field_mappings : list (str * list str) :=
  [(lit "chapter", map lit ["chapter"; "Chapter"; "ch"]%string);
   (lit "verse", map lit ["verse"; "Verse"; "v"]%string);
   (lit "sanskrit", map lit ["sanskrit"; "Sanskrit"; "sa"]%string);
   (lit "hindi", map lit ["hindi"; "Hindi"; "hi"]%string);
   (lit "english",
    map lit ["english"; "English"; "en"; "translation"]%string)].

(** The inner loop of [normalize_schema]: the value under the first
    spelling that the record has. *)
Fixpoint first_present {V} (data : dict V) (possible_fields : list str)
  : option V :=
  match possible_fields with
  | [] => None
  | possible_field :: rest =>
      match get data possible_field with
      | Some v => Some v
      | None => first_present data rest
      end
  end.

(** [normalize_schema] *)
Definition normalize_schema {V} (data : dict V) : dict V :=
  flat_map (fun m => match first_present data (snd m) with
                     | Some v => [(fst m, v)]
                     | None => []
                     end) field_mappings.

(** [format(n, "02d")]: zeros are put behind the sign until the width is
    two. *)
Definition format_02d (n : Z) : str :=
  let s := str_of_int n in
  match s with
  | c :: digits =>
      if Ascii.eqb c "-" then c :: repeat "0"%char (2 - length s) ++ digits
      else repeat "0"%char (2 - length s) ++ s
  | [] => repeat "0"%char 2
  end.

(** [create_verse_id]: [f"{chapter:02d}.{verse:02d}"]. *)
Definition create_verse_id (chapter verse : Z) : str :=
  format_02d chapter ++ lit "." ++ format_02d verse.

(** The values a field of a dataset record holds: [None], an integer
    or a string. *)
Inductive value :=
| VNone
| VInt (n : Z)
| VStr (s : str).

(** The truth value of a field, as [not x] and [if x] test it. *)
Definition truth (v : value) : bool :=
  match v with
  | VNone => false
  | VInt n => negb (n =? 0)%Z
  | VStr s => match s with [] => false | _ => true end
  end.

(** [int(x)] inside a [try] that catches [ValueError] and [TypeError]:
    [None] stands for either. *)
Definition int_of_value (v : value) : option Z :=
  match v with
  | VNone => None
  | VInt n => Some n
  | VStr s => match int_of_str s with Ok n => Some n | Raise _ => None end
  end.

(** What [validate_verse_data] does: it returns a boolean, or the call
    [verse_data['text'].strip()] raises [AttributeError] on a text
    that is an integer. *)
Inductive verdict :=
| Returns (b : bool)
| AttributeError.

Definition required_fields : list str :=
  map lit ["chapter"; "verse"; "text"]%string.

(** [field not in verse_data or not verse_data[field]] *)
Definition missing_or_empty (verse_data : dict value) (field : str) : bool :=
  match get verse_data field with
  | None => true
  | Some v => negb (truth v)
  end.

(** [validate_verse_data] *)
Definition validate_verse_data (verse_data : dict value) : verdict :=
  if existsb (missing_or_empty verse_data) required_fields
  then Returns false
  else
    match get verse_data (lit "chapter"), get verse_data (lit "verse"),
          get verse_data (lit "text") with
    | Some c, Some v, Some t =>
        match int_of_value c, int_of_value v with
        | Some chapter, Some verse =>
            if ((chapter <? 1) || (18 <? chapter) || (verse <? 1))%Z
            then Returns false
            else
              match t with
              | VStr s =>
                  match strip s with
                  | [] => Returns false
                  | _ => Returns true
                  end
              | _ => AttributeError
              end
        | _, _ => Returns false
        end
    | _, _, _ => Returns false
    end.

End Schema.

(** ** Context blocks: rag/utils.py and rag/retriever.py *)

Module Context.

(** [format_context_block] of [rag/utils.py]. *)
Definition format_context_block (passages : list SearchResult) : str :=
  join [NL; NL] (map (fun p => cite p ++ lit " " ++ text p) passages).

(** [format_search_results] *)
Definition format_search_results (results : list SearchResult) : str :=
  match results with
  | [] => lit "No relevant verses found."
  | _ => join [NL; NL] (map (fun r => cite r ++ lit " " ++ text r) results)
  end.

Definition len (s : str) : Z := Z.of_nat (length s).

(** The loop of [get_context_for_generation]; it yields
    [context_parts]. *)
Fixpoint context_parts (max_length current_length : Z)
  (results : list SearchResult) : list str :=
  match results with
  | [] => []
  | r :: rest =>
      let citation := cite r in
      let txt := text r in
      if (max_length <? current_length + len txt + len citation + 10)%Z
      then
        let remaining :=
          (max_length - current_length - len citation - 10)%Z in
        if (100 <? remaining)%Z then
          let txt := firstn (Z.to_nat remaining) txt ++ lit "..." in
          (citation ++ lit " " ++ txt)
          :: context_parts max_length
               (current_length + len txt + len citation + 10) rest
        else []
      else
        (citation ++ lit " " ++ txt)
        :: context_parts max_length
             (current_length + len txt + len citation + 10) rest
  end.

(** [get_context_for_generation] *)
Definition get_context_for_generation (results : list SearchResult)
  (max_length : Z) : str :=
  match results with
  | [] => []
  | _ => join [NL; NL] (context_parts max_length 0 results)
  end.

End Context.

(** ** rag/ollama_answerer.py *)

Module OllamaAnswerer.

Definition no_passages_message : str :=
  lit "I couldn't find relevant passages to answer your question.".

(** [_format_context] *)
Definition format_context (passages : list SearchResult) : str :=
  join [NL; NL] (map (fun p => cite p ++ lit " " ++ text p) passages).

(** [_fallback_answer] *)
Definition fallback_answer (passages : list SearchResult) : str :=
  match passages with
  | [] => no_passages_message
  | best_passage :: _ =>
      lit "Based on the Bhagavad Gita " ++ cite best_passage ++ lit ": "
      ++ text best_passage
  end.

(** [generate_answer]; [chat query context] is the content of the
    model's reply, or [None] when the call raises. *)
Definition generate_answer (chat : str -> str -> option str)
  (query : str) (passages : list SearchResult) : str :=
  match passages with
  | [] => no_passages_message
  | _ =>
      match chat query (format_context passages) with
      | Some content => content
      | None => fallback_answer passages
      end
  end.

End OllamaAnswerer.

(** ** app.py *)

Module App.

Definition deflection_message : str :=
  lit "I can help you with questions about life, spirituality, and personal growth based on the Bhagavad Gita.".

Definition no_match_message : str :=
  lit "I couldn't find relevant verses in the Bhagavad Gita to answer your question. Please try rephrasing your question or asking about topics like duty, focus, relationships, or personal growth.".

(** [process_query], with the retriever and the answerer of the session
    state passed in. *)
Definition process_query
  (docs : list Doc) (nearest : str -> list (Q * Z))
  (gemini openai ollama : str -> str -> option str)
  (query model_type : str) (k : Z) : result (str * list SearchResult) :=
  if negb (safety_check query) then Ok (deflection_message, [])
  else
    bind (search_best_answer docs nearest query) (fun search_result =>
    match search_result with
    | None => Ok (no_match_message, [])
    | Some found =>
        let best := best_verse found in
        let all_passages := best :: context_verses found in
        let answer :=
          Answer.generate_answer gemini openai ollama query [best]
            model_type in
        let sources :=
          if (k =? 0)%Z then all_passages else slice_to all_passages k in
        Ok (answer, sources)
    end).

End App.

(** ** eval/eval.py *)

Module EvalScript.

(** The report of [validate_citations]; [coverage] is the quotient of
    two list lengths. *)
Record CitationCheck := {
  found_citations : list str;
  expected_citations : list str;
  found_expected : list str;
  unexpected : list str;
  coverage : Q
}.

(** [validate_citations] of the evaluation script. *)
Definition validate_citations (answer : str) (expected : list str)
  : CitationCheck :=
  let found := extract_citations_from_text answer in
  let hit := filter (fun c => mem c found) expected in
  let extra := filter (fun c => negb (mem c expected)) found in
  {| found_citations := found;
     expected_citations := expected;
     found_expected := hit;
     unexpected := extra;
     coverage :=
       match expected with
       | [] => 0%Q
       | _ => (inject_Z (Z.of_nat (length hit))
               / inject_Z (Z.of_nat (length expected)))%Q
       end |}.

(** One entry of the dictionary of [test_verse_existence]. *)
Record Existence := {
  exists_ : bool;
  verse_data : option SearchResult;
  error : option str
}.

(** [results[citation] = entry] on a dictionary kept as its item list. *)
Fixpoint set_item {V} (d : Schema.dict V) (k : str) (v : V)
  : Schema.dict V :=
  match d with
  | [] => [(k, v)]
  | (k', v') :: rest =>
      if str_eqb k' k then (k', v) :: rest
      else (k', v') :: set_item rest k v
  end.

(** The body of the loop of [test_verse_existence], with its handler. *)
Definition existence_of (docs : list Doc) (cit : str) : result Existence :=
  catch
    (bind (parse_citation cit) (fun cv =>
     let data := get_verse_by_citation docs (fst cv) (snd cv) in
     Ok {| exists_ := match data with Some _ => true | None => false end;
           verse_data := data;
           error := None |}))
    (fun e => match e with
              | ValueError | IndexError => true
              | _ => false
              end)
    (Ok {| exists_ := false; verse_data := None;
           error := Some (lit "Invalid citation format") |}).

(** [test_verse_existence] *)
Fixpoint existence_loop (docs : list Doc) (citations : list str)
  (results : Schema.dict Existence) : result (Schema.dict Existence) :=
  match citations with
  | [] => Ok results
  | cit :: rest =>
      bind (existence_of docs cit) (fun entry =>
      existence_loop docs rest (set_item results cit entry))
  end.

Definition test_verse_existence (docs : list Doc) (citations : list str)
  : result (Schema.dict Existence) :=
  existence_loop docs citations [].

End EvalScript.

(** ** rag/indexer.py: loading the verses *)

Module Indexer.

Import Schema.

(** The exceptions that the body of the loading loop lets through:
    [int(x)] on a string that is no number or on [None], and
    [text.strip()] inside [clean_text] on a number. *)
Inductive row_exn := RowValueError | RowTypeError | RowAttributeError.

Inductive loaded (A : Type) :=
| Done (a : A)
| Raised (e : row_exn).
Arguments Done {A} a.
Arguments Raised {A} e.

(** What one turn of the loop does with a row: [continue], append a
    verse, or raise. *)
Inductive row_result :=
| Skipped
| Appended (verse_data : Doc)
| Failed (e : row_exn).

(** [int(x)] on a field. *)
Definition int_field (v : value) : loaded Z :=
  match v with
  | VNone => Raised RowTypeError
  | VInt n => Done n
  | VStr s =>
      match int_of_str s with
      | Ok n => Done n
      | Raise _ => Raised RowValueError
      end
  end.

(** [clean_text(x)] on a field: a falsy field gives the empty string
    before any string method is called. *)
Definition clean_field (v : value) : loaded str :=
  match v with
  | VNone => Done []
  | VInt n => if (n =? 0)%Z then Done [] else Raised RowAttributeError
  | VStr s => Done (clean_text s)
  end.

(** [bool(d.get(k))] *)
Definition has (d : dict value) (k : str) : bool :=
  match get d k with
  | Some v => truth v
  | None => false
  end.

(** [d.get(k, default)] *)
Definition get_or (d : dict value) (k : str) (default : value) : value :=
  match get d k with
  | Some v => v
  | None => default
  end.

(** [f"Chapter {chapter}, Verse {verse_num}"] *)
Definition heading (chapter verse_num : Z) : str :=
  lit "Chapter " ++ str_of_int chapter ++ lit ", Verse "
  ++ str_of_int verse_num.

(** The body of the loop of [load_dataset]. *)
Definition load_row (row : dict value) : row_result :=
  let normalized := normalize_schema row in
  if negb (has normalized (lit "chapter"))
     || negb (has normalized (lit "verse"))
  then Skipped
  else if negb (has normalized (lit "english"))
          && negb (has normalized (lit "hindi"))
  then Skipped
  else
    match int_field (get_or normalized (lit "chapter") VNone) with
    | Raised e => Failed e
    | Done chapter =>
    match int_field (get_or normalized (lit "verse") VNone) with
    | Raised e => Failed e
    | Done verse_num =>
    let text :=
      get_or normalized (lit "english")
        (get_or normalized (lit "hindi") (VStr [])) in
    match clean_field text with
    | Raised e => Failed e
    | Done [] => Skipped
    | Done text =>
        let sanskrit := get_or normalized (lit "sanskrit") (VStr []) in
        if truth sanskrit then
          match clean_field sanskrit with
          | Raised e => Failed e
          | Done sanskrit =>
              Appended
                {| doc_id := create_verse_id chapter verse_num;
                   doc_chapter := chapter;
                   doc_verse := verse_num;
                   doc_text := heading chapter verse_num ++ [NL] ++ sanskrit
                               ++ [NL; NL] ++ text;
                   doc_sanskrit := match sanskrit with
                                   | [] => None
                                   | _ => Some sanskrit
                                   end |}
          end
        else
          Appended
            {| doc_id := create_verse_id chapter verse_num;
               doc_chapter := chapter;
               doc_verse := verse_num;
               doc_text := heading chapter verse_num ++ [NL; NL] ++ text;
               doc_sanskrit := None |}
    end
    end
    end.

(** The loop of [load_dataset] over the rows of the dataset; an
    exception ends it. *)
Fixpoint load_rows (data : list (dict value)) : loaded (list Doc) :=
  match data with
  | [] => Done []
  | row :: rest =>
      match load_row row with
      | Failed e => Raised e
      | Skipped => load_rows rest
      | Appended verse_data =>
          match load_rows rest with
          | Done verses => Done (verse_data :: verses)
          | Raised e => Raised e
          end
      end
  end.

End Indexer.

(** * Vocabulary of the properties *)

(** ** The safety filter *)

(** The specification's reading of a hit: some stretch of the query
    equals the keyword up to the case of its letters. *)
Definition occurs_ignoring_case (keyword query : str) : Prop :=
  exists l w r, query = l ++ w ++ r /\ lower w = lower keyword.

Definition keyword_hit (query : str) : Prop :=
  exists k, In k (medical_keywords ++ legal_keywords)
            /\ occurs_ignoring_case k query.

(** ** The generation back ends *)

(** The back end that a mode names; [extractive] and unknown modes name
    none. *)
Definition backend_for (gemini openai ollama : str -> str -> option str)
  (model_type : str) : option (str -> str -> option str) :=
  if str_eqb model_type (lit "gemini") then Some gemini
  else if str_eqb model_type (lit "openai") then Some openai
  else if str_eqb model_type (lit "ollama") then Some ollama
  else None.

(** A back-end call that yields no text: [None], or the empty string
    that [if answer:] treats alike. *)
Definition no_text (a : option str) : Prop := a = None \/ a = Some [].

(** ** The index and its hits *)

(** Orderings of a score sequence. *)
Definition descending (l : list Q) : Prop :=
  StronglySorted (fun a b => (b <= a)%Q) l.

Definition strictly_descending (l : list Q) : Prop :=
  StronglySorted (fun a b => (b < a)%Q) l.

(** The contract of the index towards the verse list kept beside it:
    every label it returns is the filler [-1] or a position of [docs]. *)
Definition label_ok (docs : list Doc) (h : Q * Z) : Prop :=
  (snd h = -1 \/ 0 <= snd h < Z.of_nat (length docs))%Z.

Definition index_well_formed (docs : list Doc)
  (nearest : str -> list (Q * Z)) (query : str) : Prop :=
  Forall (label_ok docs) (nearest query).

(** A hit that the loop of [search] keeps: a real label and a score that
    is not below the floor. *)
Definition passes (h : Q * Z) : bool :=
  negb (snd h =? -1)%Z && negb (below_floor (fst h)).

(** The hits that [search] looks at: none for a blank query. *)
Definition consulted (nearest : str -> list (Q * Z)) (query : str)
  : list (Q * Z) :=
  match strip query with
  | [] => []
  | _ => nearest query
  end.

(** The hits with the positions that [enumerate] gives them, counted
    from [i]. *)
Fixpoint enumerate (i : Z) (hits : list (Q * Z)) : list (Z * (Q * Z)) :=
  match hits with
  | [] => []
  | h :: rest => (i, h) :: enumerate (i + 1) rest
  end.

(** The numbered hits that pass, in the order of the index. *)
Definition kept (hits : list (Q * Z)) : list (Z * (Q * Z)) :=
  filter (fun e => passes (snd e)) (enumerate 0 hits).

(** The result [r] is made from the numbered hit [e]: it has the score
    of the hit, the position of the hit plus one as its rank, and the
    fields of the verse that the label of the hit selects. *)
Definition made_from (docs : list Doc) (e : Z * (Q * Z))
  (r : SearchResult) : Prop :=
  exists d, getitem docs (snd (snd e)) = Ok d
            /\ r = result_of d (fst (snd e)) (fst e + 1).

(** No two records of the corpus carry the same chapter and verse. *)
Definition unique_keys (docs : list Doc) : Prop :=
  forall d d', In d docs -> In d' docs ->
    doc_chapter d = doc_chapter d' -> doc_verse d = doc_verse d' -> d = d'.

(** ** Citation strings *)

(** The exact textual form [[chapter.verse]]: the fixed citation pattern
    matches the whole string. *)
Definition exact_form (cit : str) : bool :=
  match match_citation cit with
  | Some (_, _, n) => n =? length cit
  | None => false
  end.

(** The parts that [validate_citations] reads the numbers from. *)
Definition parts_of (cit : str) : list str :=
  split_at (Ascii.eqb ".") (strip_chars (lit "[]") cit).

(** A string the parser gives up on: it does not fall into exactly two
    parts, or [int] rejects one of them. *)
Definition unreadable (cit : str) : Prop :=
  forall a b, parts_of cit = [a; b] ->
    int_of_str a = Raise ValueError \/ int_of_str b = Raise ValueError.

(** What one report says about its citation. *)
Definition report_ok (docs : list Doc) (r : Validation) : Prop :=
  (unreadable (citation r) -> exists_ r = false /\ verse_data r = None)
  /\ (forall a b c v,
        parts_of (citation r) = [a; b] ->
        int_of_str a = Ok c -> int_of_str b = Ok v ->
        verse_data r = get_verse_by_citation docs c v
        /\ exists_ r = match verse_data r with
                       | Some _ => true
                       | None => false
                       end).

(** A citation the pattern can read: neither number is negative. *)
Definition readable_numbers (c v : Z) : bool := ((0 <=? c) && (0 <=? v))%Z.

(** The citations that the pattern reads back from a list of passages. *)
Definition cited (passages : list SearchResult) : list str :=
  flat_map (fun p => if readable_numbers (chapter p) (verse p)
                     then [cite p] else []) passages.

(** A text without a period. *)
Definition dot_free (s : str) : Prop :=
  Forall (fun c => Ascii.eqb c "." = false) s.

(** A stretch is [inert] when it ends in a character that the pattern
    cannot pass (none of an opening bracket, a digit, a period) and
    none of its periods is followed by a digit. *)
Definition pattern_inner (c : ascii) : bool :=
  Ascii.eqb c "[" || isdigit c || Ascii.eqb c ".".

Fixpoint inert (a : str) : bool :=
  match a with
  | [] => true
  | c :: a' =>
      match a' with
      | [] => negb (pattern_inner c)
      | d :: _ => (negb (Ascii.eqb c ".") || negb (isdigit d)) && inert a'
      end
  end.

(** ** The extractive answer *)

(** The words of a text as the code compares them. *)
Definition words (s : str) : list str := split_ws (lower s).

(** [n] is the size of the intersection of the word sets of the query
    and of the sentence. *)
Definition shared_words (n : nat) (query sentence : str) : Prop :=
  exists ws, NoDup ws /\ length ws = n
    /\ forall w, In w ws <-> In w (words query) /\ In w (words sentence).

(** The sentences that take part in the selection. *)
Definition candidates (verse_text : str) : list str :=
  filter (fun s => 20 <=? length s)
         (map strip (re_split sentence_end verse_text)).

(** [s] is the first sentence of highest score, and its score is above
    zero. *)
Definition first_best (sc : str -> nat) (cands : list str) (s : str)
  : Prop :=
  exists before after, cands = before ++ s :: after
    /\ 0 < sc s
    /\ (forall t, In t before -> sc t < sc s)
    /\ (forall t, In t after -> sc t <= sc s).

(** The text before its first period. *)
Fixpoint before_period (s : str) : str :=
  match s with
  | [] => []
  | c :: s' => if Ascii.eqb c "." then [] else c :: before_period s'
  end.

(** The second line of the answer. *)
Definition related_line (others : list SearchResult) : str :=
  match others with
  | [] => []
  | _ => [NL; NL] ++ lit "Related guidance: "
         ++ join (lit ", ") (map cite (firstn 2 others))
  end.

(** One turn of the selection loop, seen on the candidates only, for a
    scoring function [sc]. *)
Definition keep_better (sc : str -> nat) (st : str * nat) (s : str)
  : str * nat :=
  if snd st <? sc s then (s, sc s) else st.

(** ** Cleaned text *)

(** A printable character: U+0020..U+007E. *)
Definition printable (c : ascii) : bool :=
  let n := code c in ((32 <=? n) && (n <=? 126))%N.

(** Every blank of the text is a single space followed by a character
    that is no blank. *)
Fixpoint spaced (t : str) : bool :=
  match t with
  | [] => true
  | c :: t' =>
      (if isspace c
       then Ascii.eqb c " "
            && match t' with
               | d :: _ => negb (isspace d)
               | [] => false
               end
       else true)
      && spaced t'
  end.

(** A tidy text: it does not begin with a blank, and it is [spaced]. *)
Definition tidy (t : str) : bool :=
  match t with
  | [] => true
  | c :: _ => negb (isspace c) && spaced t
  end.

(** The blanks of a text are collapsed and its ends trimmed. *)
Definition squeeze (text : str) : str := sub_ws_runs false (strip text).

(** The characters of a rendered number: digits and the minus sign. *)
Definition numeric (c : ascii) : bool := isdigit c || Ascii.eqb c "-".

(** ** Hits and labels *)

(** A label that [docs[idx]] accepts: a position, or a negative number
    that counts from the end. *)
Definition in_reach (docs : list Doc) (idx : Z) : Prop :=
  (- Z.of_nat (length docs) <= idx < Z.of_nat (length docs))%Z.

(** The result [r] shows the hit at position [j] of [hits], counted
    from [first]: the score and the rank are those of the hit, and the
    other fields are copied from the verse that the label selects. *)
Definition shows_hit (docs : list Doc) (hits : list (Q * Z)) (first : Z)
  (r : SearchResult) : Prop :=
  exists j s idx d,
    nth_error hits j = Some (s, idx)
    /\ passes (s, idx) = true
    /\ getitem docs idx = Ok d /\ In d docs
    /\ rank r = (first + Z.of_nat j)%Z
    /\ r = result_of d s (rank r).

(** ** Context blocks *)

(** What [get_context_for_generation] counts for its parts: the length
    of each part and nine more. *)
Fixpoint accounted (parts : list str) : Z :=
  match parts with
  | [] => 0
  | p :: rest => (Context.len p + 9 + accounted rest)%Z
  end.

(** ** Loaded verses *)

(** A verse as [load_dataset] builds it: the identifier is made from
    the chapter and the verse, and the text is the heading, the cleaned
    Sanskrit when the record has one, a blank line and the cleaned
    translation, which is not empty. *)
Definition well_built (d : Doc) : Prop :=
  doc_id d = Schema.create_verse_id (doc_chapter d) (doc_verse d)
  /\ exists body,
       body <> [] /\ Forall (fun c => printable c = true) body
       /\ ((doc_text d
            = Indexer.heading (doc_chapter d) (doc_verse d)
              ++ [NL; NL] ++ body
            /\ doc_sanskrit d = None)
           \/ exists original,
                Forall (fun c => printable c = true) original
                /\ doc_text d
                   = Indexer.heading (doc_chapter d) (doc_verse d)
                     ++ [NL] ++ original ++ [NL; NL] ++ body
                /\ doc_sanskrit d = match original with
                                    | [] => None
                                    | _ => Some original
                                    end).

(** ** Sample data *)

(** The text "a é b": a letter outside the printable range between two
    blanks. *)
Definition accented_text : str :=
  ["a"; " "; ascii_of_N 233; " "; "b"]%char.

(** A passage and back ends without credentials, to run the dispatch. *)
Definition duty_passage : SearchResult :=
  {| id := lit "02.47"; chapter := 2; verse := 47;
     text := lit "Do your duty without attachment to results. Be steady.";
     sanskrit := None; score := (9 # 10)%Q; rank := 1 |}.

Definition unavailable : str -> str -> option str := fun _ _ => None.

(** A corpus of two verses with the same wording, and the hits of an
    index over it: both verses, at score 0.5 each. *)
Definition verse_2_47 : Doc :=
  {| doc_id := lit "02.47"; doc_chapter := 2; doc_verse := 47;
     doc_text := lit "Do your duty without attachment to results.";
     doc_sanskrit := None |}.

Definition verse_3_1 : Doc :=
  {| doc_id := lit "03.01"; doc_chapter := 3; doc_verse := 1;
     doc_text := lit "Do your duty without attachment to results.";
     doc_sanskrit := None |}.

Definition small_corpus : list Doc := [verse_2_47; verse_3_1].

Definition tied_index : str -> list (Q * Z) :=
  fun _ => [((1 # 2)%Q, 0%Z); ((1 # 2)%Q, 1%Z)].

(** An index without ties: two hits that pass, one below the floor and
    one filler entry. *)
Definition ranked_index : str -> list (Q * Z) :=
  fun _ => [((9 # 10)%Q, 1%Z); ((1 # 2)%Q, 0%Z); ((1 # 20)%Q, 0%Z);
            ((-1 # 1)%Q, (-1)%Z)].

Definition ranked_results : list SearchResult :=
  [result_of verse_3_1 (9 # 10)%Q 1; result_of verse_2_47 (1 # 2)%Q 2].

(** The bundle that [search_best_answer] builds over the small corpus. *)
Definition tied_best : BestAnswer :=
  {| best_verse := result_of verse_2_47 (1 # 2)%Q 1;
     context_verses := [result_of verse_3_1 (1 # 2)%Q 2];
     total_matches := 2;
     confidence := (1 # 2)%Q |}.

(** Rows of a dataset: one with alternate field names and a Sanskrit
    text, one whose English field is empty. *)
Definition sample_row : Schema.dict Schema.value :=
  [(lit "Chapter", Schema.VInt 2);
   (lit "Verse", Schema.VStr (lit "47"));
   (lit "translation", Schema.VStr (lit " Do   your duty. "));
   (lit "Sanskrit", Schema.VStr (lit "karmany eva"))].

Definition empty_english_row : Schema.dict Schema.value :=
  [(lit "chapter", Schema.VInt 3);
   (lit "verse", Schema.VInt 1);
   (lit "english", Schema.VStr []);
   (lit "hindi", Schema.VStr (lit "karm karo"))].

Definition sample_verse : Doc :=
  {| doc_id := lit "02.47"; doc_chapter := 2; doc_verse := 47;
     doc_text := Indexer.heading 2 47 ++ [NL] ++ lit "karmany eva"
                 ++ [NL; NL] ++ lit "Do your duty.";
     doc_sanskrit := Some (lit "karmany eva") |}.

(** * Properties *)

(** ** Substring search and the safety filter *)

Section SafetyFilter.

Lemma startswith_iff (sub s : str) :
  startswith sub s = true <-> exists r, s = sub ++ r.
Proof.
  revert s; induction sub as [|a sub IH]; intros s; simpl.
  - split; [exists s; reflexivity | reflexivity].
  - destruct s as [|b s].
    + split; [discriminate | intros [r Hr]; discriminate].
    + rewrite andb_true_iff, Ascii.eqb_eq, IH. split.
      * intros [-> [r ->]]. exists r; reflexivity.
      * intros [r Hr]. injection Hr as -> ->. split; [reflexivity | eauto].
Qed.

Lemma contains_iff (sub s : str) :
  contains sub s = true <-> exists l r, s = l ++ sub ++ r.
Proof.
  induction s as [|b s IH].
  - cbn [contains]. rewrite orb_false_r, startswith_iff. split.
    + intros [r Hr]. exists [], r. exact Hr.
    + intros [l [r Hr]]. destruct l; [eauto | discriminate].
  - cbn [contains]. rewrite orb_true_iff, startswith_iff, IH. split.
    + intros [[r Hr] | [l [r Hr]]].
      * exists [], r. exact Hr.
      * exists (b :: l), r. rewrite Hr. reflexivity.
    + intros [[|c l] [r Hr]].
      * left. exists r. exact Hr.
      * right. injection Hr as -> ->. eauto.
Qed.

Lemma safety_scan_false (keywords : list str) (q : str) :
  safety_scan keywords q = false <->
  exists k, In k keywords /\ contains k q = true.
Proof.
  induction keywords as [|k ks IH]; simpl.
  - split; [discriminate | intros [k [[] _]]].
  - destruct (contains k q) eqn:E.
    + split; [intros _; exists k; auto | reflexivity].
    + rewrite IH. split.
      * intros [k' [Hin Hc]]. exists k'; auto.
      * intros [k' [[<- | Hin] Hc]]; [congruence | exists k'; auto].
Qed.

(** The keywords are written in lower case. *)
Lemma keywords_lower (k : str) :
  In k (medical_keywords ++ legal_keywords) -> lower k = k.
Proof.
  assert (H : forallb (fun k => str_eqb (lower k) k)
                (medical_keywords ++ legal_keywords) = true)
    by (vm_compute; reflexivity).
  rewrite forallb_forall in H. intros Hin. specialize (H k Hin).
  unfold str_eqb in H.
  destruct (str_eq_dec (lower k) k); [assumption | discriminate].
Qed.

Lemma contains_lower_iff (k query : str) :
  lower k = k ->
  contains k (lower query) = true <-> occurs_ignoring_case k query.
Proof.
  intros Hk. rewrite contains_iff. unfold occurs_ignoring_case, lower in *.
  split.
  - intros [l [r H]].
    apply map_eq_app in H as [l0 [t [-> [Hl Ht]]]].
    apply map_eq_app in Ht as [w [r0 [-> [Hw Hr]]]].
    exists l0, w, r0. split; [reflexivity | congruence].
  - intros [l [w [r [-> Hw]]]].
    exists (map lower_char l), (map lower_char r).
    rewrite !map_app. congruence.
Qed.

(** C9.  [safety_check] answers [False] exactly when one of the medical
    or legal keywords occurs in the query up to letter case, and [True]
    otherwise; the two queries of the specification come out as stated. *)
Theorem safety_check_spec :
  (forall query, safety_check query = false <-> keyword_hit query)
  /\ (forall query, safety_check query = true <-> ~ keyword_hit query)
  /\ safety_check (lit "What medicine should I take?") = false
  /\ safety_check (lit "How do I focus on my duty?") = true.
Proof.
  assert (Hf : forall query, safety_check query = false <-> keyword_hit query).
  { intros query. unfold safety_check, keyword_hit.
    rewrite safety_scan_false. split.
    - intros [k [Hin Hc]]. exists k. split; [assumption|].
      apply contains_lower_iff; auto using keywords_lower.
    - intros [k [Hin Hc]]. exists k. split; [assumption|].
      apply contains_lower_iff; auto using keywords_lower. }
  split; [exact Hf|]. split.
  - intros query. rewrite <- Hf.
    destruct (safety_check query); split; congruence.
  - split; vm_compute; reflexivity.
Qed.

End SafetyFilter.

(** ** Text cleaning *)

Section CleanText.

(** C6.  [clean_text] collapses the blanks first and deletes the
    characters outside the printable range afterwards, so the two blanks
    around a deleted character stay side by side: on "a é b" the result
    is "a  b" with two spaces, and cleaning that again gives "a b". *)
Theorem clean_text_twice_differs :
  clean_text accented_text = lit "a  b"
  /\ clean_text (clean_text accented_text) = lit "a b"
  /\ clean_text (clean_text accented_text) <> clean_text accented_text.
Proof.
  repeat split; try (vm_compute; reflexivity).
  vm_compute. discriminate.
Qed.

End CleanText.

(** ** Dispatch to the generation back ends *)

Section Dispatch.

Variables gemini openai ollama : str -> str -> option str.

Lemma answer_or_no_text (a : option str) (otherwise : str) :
  no_text a -> answer_or a otherwise = otherwise.
Proof. intros [-> | ->]; reflexivity. Qed.

Lemma generate_extractive (query : str) (passages : list SearchResult) :
  generate_answer gemini openai ollama query passages (lit "extractive")
  = match passages with
    | [] => no_verses_message
    | _ => extractive_answer query passages
    end.
Proof. destruct passages; reflexivity. Qed.

(** C2.  When the back end named by the mode yields no text for the
    query and the context built from the passages, [generate_answer]
    returns the very string it returns in mode "extractive". *)
Theorem generate_answer_fallback
  (query : str) (passages : list SearchResult) (model_type : str) :
  passages <> [] ->
  (forall backend, backend_for gemini openai ollama model_type = Some backend ->
                   no_text (backend query (context_of passages))) ->
  generate_answer gemini openai ollama query passages model_type
  = generate_answer gemini openai ollama query passages (lit "extractive").
Proof.
  intros Hne Hdown. rewrite generate_extractive.
  unfold generate_answer. unfold backend_for in Hdown.
  destruct passages as [|p ps]; [congruence|].
  destruct (str_eqb model_type (lit "gemini")).
  { apply answer_or_no_text, Hdown; reflexivity. }
  destruct (str_eqb model_type (lit "openai")).
  { apply answer_or_no_text, Hdown; reflexivity. }
  destruct (str_eqb model_type (lit "ollama")).
  { apply answer_or_no_text, Hdown; reflexivity. }
  reflexivity.
Qed.

Lemma str_eqb_neq (a b : str) : a <> b -> str_eqb a b = false.
Proof. intros H. unfold str_eqb. destruct (str_eq_dec a b); congruence. Qed.

(** C10.  A mode string that is none of "gemini", "openai", "ollama" and
    "extractive" is not rejected: [generate_answer] returns the
    extractive answer. *)
Theorem generate_answer_unknown_mode
  (query : str) (passages : list SearchResult) (model_type : str) :
  passages <> [] ->
  model_type <> lit "gemini" -> model_type <> lit "openai" ->
  model_type <> lit "ollama" -> model_type <> lit "extractive" ->
  generate_answer gemini openai ollama query passages model_type
  = extractive_answer query passages.
Proof.
  intros Hne Hg Ho Hl _. unfold generate_answer.
  destruct passages as [|p ps]; [congruence|].
  rewrite !str_eqb_neq by assumption. reflexivity.
Qed.

End Dispatch.

Lemma generate_answer_fallback_witness :
  generate_answer unavailable unavailable unavailable
    (lit "duty") [duty_passage] (lit "gemini")
  = generate_answer unavailable unavailable unavailable
      (lit "duty") [duty_passage] (lit "extractive").
Proof.
  apply (@generate_answer_fallback unavailable unavailable unavailable
           (lit "duty") [duty_passage] (lit "gemini")).
  - discriminate.
  - intros backend H. vm_compute in H. injection H as <-.
    left. reflexivity.
Defined.

Lemma generate_answer_unknown_mode_witness :
  generate_answer unavailable unavailable unavailable
    (lit "duty") [duty_passage] (lit "llama")
  = extractive_answer (lit "duty") [duty_passage].
Proof.
  apply (@generate_answer_unknown_mode unavailable unavailable unavailable
           (lit "duty") [duty_passage] (lit "llama"));
    vm_compute; discriminate.
Defined.

(** ** Search over the index *)

Lemma in_firstn {A} (n : nat) (l : list A) (x : A) :
  In x (firstn n l) -> In x l.
Proof.
  revert l; induction n as [|n IH]; intros [|a l]; simpl; try tauto.
  intros [<- | H]; auto.
Qed.

Section SortedSublists.

Variable R : Q -> Q -> Prop.

Lemma sorted_filter_fst (p : Q * Z -> bool) (hits : list (Q * Z)) :
  StronglySorted R (map fst hits) ->
  StronglySorted R (map fst (filter p hits)).
Proof.
  induction hits as [|h hits IH]; simpl; intros H; [constructor|].
  inversion H as [|? ? Hs Hall]; subst.
  destruct (p h); simpl; auto.
  constructor; auto.
  rewrite Forall_forall in *. intros x Hx. apply Hall.
  apply in_map_iff in Hx as [y [<- Hy]].
  apply filter_In in Hy as [Hy _]. apply in_map. exact Hy.
Qed.

Lemma sorted_firstn (n : nat) (l : list Q) :
  StronglySorted R l -> StronglySorted R (firstn n l).
Proof.
  revert l; induction n as [|n IH]; intros l H; simpl; [constructor|].
  destruct l as [|a l]; [constructor|].
  inversion H as [|? ? Hs Hall]; subst. constructor; auto.
  rewrite Forall_forall in *. intros x Hx. apply Hall.
  eapply in_firstn; eauto.
Qed.

End SortedSublists.

Section RetrieverFacts.

Variable docs : list Doc.
Variable nearest : str -> list (Q * Z).

Lemma not_below_floor (s : Q) :
  below_floor s = false -> (score_floor <= s)%Q.
Proof.
  unfold below_floor. intros H. apply negb_false_iff in H.
  apply Qle_bool_iff. exact H.
Qed.

Lemma getitem_in_range {A} (l : list A) (i : Z) :
  (0 <= i < Z.of_nat (length l))%Z ->
  exists a, getitem l i = Ok a /\ nth_error l (Z.to_nat i) = Some a.
Proof.
  intros Hi. unfold getitem.
  destruct (Z.ltb_spec i 0); [lia|].
  destruct (Z.leb_spec 0 i); [|lia].
  destruct (Z.ltb_spec i (Z.of_nat (length l))); [|lia]. simpl.
  destruct (nth_error l (Z.to_nat i)) as [a|] eqn:E; [eauto|].
  apply nth_error_None in E. lia.
Qed.

(** Under the contract the loop of [search] runs to its end; it yields
    one result per kept hit, in the order of the hits, with the hit's
    score. *)
Lemma search_loop_ok (i : Z) (hits : list (Q * Z)) :
  Forall (label_ok docs) hits ->
  exists rs, search_loop docs i hits = Ok rs
             /\ map score rs = map fst (filter passes hits).
Proof.
  revert i; induction hits as [|[s idx] hits IH]; intros i Hok; simpl.
  - exists []. auto.
  - inversion Hok as [|? ? Hh Hrest]; subst.
    destruct (IH (i + 1)%Z Hrest) as [rs [Hrs Hsc]].
    unfold passes at 1; simpl.
    destruct (Z.eqb_spec idx (-1)); simpl; [eauto|].
    destruct (below_floor s) eqn:Hf; simpl; [eauto|].
    destruct Hh as [Hh | Hh]; simpl in Hh; [congruence|].
    destruct (getitem_in_range docs Hh) as [d [Hd _]].
    rewrite Hd, Hrs. simpl.
    eexists; split; [reflexivity|]. simpl. rewrite Hsc. reflexivity.
Qed.

Lemma kept_above_floor (hits : list (Q * Z)) :
  Forall (fun s => (score_floor <= s)%Q) (map fst (filter passes hits)).
Proof.
  rewrite Forall_forall. intros s Hs.
  apply in_map_iff in Hs as [h [<- Hh]].
  apply filter_In in Hh as [_ Hp]. unfold passes in Hp.
  apply andb_true_iff in Hp as [_ Hp]. apply negb_true_iff in Hp.
  apply not_below_floor. exact Hp.
Qed.

Lemma search_blank (query : str) (k : option Z) :
  strip query = [] -> search docs nearest query k = Ok [].
Proof. intros H. unfold search. rewrite H. reflexivity. Qed.

Lemma slice_to_firstn {A} (l : list A) (k : Z) :
  exists n, slice_to l k = firstn n l.
Proof. unfold slice_to. destruct (k <? 0)%Z; eauto. Qed.

Lemma search_ok (query : str) (k : option Z) :
  index_well_formed docs nearest query ->
  exists rs n, search docs nearest query k = Ok rs
    /\ map score rs
       = firstn n (map fst (filter passes (consulted nearest query)))
    /\ (k = None ->
        map score rs = map fst (filter passes (consulted nearest query))).
Proof.
  intros Hok. unfold search, consulted.
  destruct (strip query) as [|c t] eqn:E.
  - exists [], 0. auto.
  - destruct (search_loop_ok 0 Hok) as [rs [Hrs Hsc]]. rewrite Hrs. simpl.
    destruct k as [k|].
    + destruct (slice_to_firstn rs k) as [n Hn]. rewrite Hn.
      exists (firstn n rs), n. split; [reflexivity|]. split; [|discriminate].
      rewrite <- Hsc. symmetry. apply firstn_map.
    + exists rs, (length rs). split; [reflexivity|]. split; [|auto].
      rewrite <- Hsc. rewrite <- (length_map score rs).
      symmetry. apply firstn_all.
Qed.

Lemma search_loop_made (i : Z) (hits : list (Q * Z))
  (rs : list SearchResult) :
  search_loop docs i hits = Ok rs ->
  Forall2 (made_from docs)
    (filter (fun e => passes (snd e)) (enumerate i hits)) rs.
Proof.
  revert i rs; induction hits as [|[s idx] hits IH]; intros i rs;
    cbn [search_loop enumerate filter snd].
  - intros H. injection H as <-. constructor.
  - unfold passes at 1. cbn [fst snd].
    destruct (Z.eqb_spec idx (-1)); cbn [negb andb]; [apply IH|].
    destruct (below_floor s); cbn [negb]; [apply IH|].
    destruct (getitem docs idx) as [d|e] eqn:Hd; cbn [bind];
      [|discriminate].
    destruct (search_loop docs (i + 1) hits) as [rs'|e] eqn:Hl; cbn [bind];
      [|discriminate].
    intros H. injection H as <-. constructor; [|apply IH, Hl].
    exists d. cbn [fst snd]. auto.
Qed.

Lemma forall2_firstn {A B} (P : A -> B -> Prop) (n : nat)
  (l : list A) (l' : list B) :
  Forall2 P l l' -> Forall2 P (firstn n l) (firstn n l').
Proof.
  intros H. revert n. induction H as [|a b l l' Hab _ IH]; intros [|n];
    cbn [firstn]; constructor; auto.
Qed.

Lemma kept_hits (i : Z) (hits : list (Q * Z)) :
  map snd (filter (fun e => passes (snd e)) (enumerate i hits))
  = filter passes hits.
Proof.
  revert i; induction hits as [|h hits IH]; intros i;
    cbn [enumerate filter snd map]; [reflexivity|].
  destruct (passes h); cbn [map snd]; rewrite IH; reflexivity.
Qed.

Lemma made_from_scores (hs : list (Z * (Q * Z))) (rs : list SearchResult) :
  Forall2 (made_from docs) hs rs -> map score rs = map fst (map snd hs).
Proof.
  induction 1 as [|e r hs rs [d [_ ->]] _ IH]; cbn [map]; [reflexivity|].
  rewrite IH. reflexivity.
Qed.

(** The results of [search] are made, one by one and in order, from the
    first [n] kept hits; without [k], from all of them. *)
Lemma search_made (query : str) (k : option Z) (rs : list SearchResult) :
  search docs nearest query k = Ok rs ->
  exists n,
    Forall2 (made_from docs) (firstn n (kept (consulted nearest query))) rs
    /\ (k = None -> length (kept (consulted nearest query)) <= n).
Proof.
  unfold search, consulted, kept. destruct (strip query) as [|c t].
  - intros H. injection H as <-. exists 0. split; [constructor | auto].
  - destruct (search_loop docs 0 (nearest query)) as [all|e] eqn:Hl;
      cbn [bind]; [|discriminate].
    apply search_loop_made in Hl. intros H. injection H as <-.
    destruct k as [k|].
    + destruct (slice_to_firstn all k) as [n ->]. exists n.
      split; [apply forall2_firstn, Hl | discriminate].
    + eexists. split; [|intros _; apply Nat.le_refl].
      rewrite firstn_all. exact Hl.
Qed.

(** C4, as the code has it.  A blank query gives the empty sequence and
    no error, and under the contract of the index [search] returns.
    Whatever [search] returns, every result scores at least 0.1, and
    the results keep the order of the index: they are made, one by one
    and in that order, from the hits that pass the floor ([hs], all of
    them when no [k] is given), each with the score of its hit and the
    position of its hit as rank.  So the scores descend when the index
    lists its hits by descending score, equal scores staying in the
    order of the index, and they descend strictly when no two hits that
    pass share a score. *)
Theorem search_floor_and_order (query : str) (k : option Z) :
  (strip query = [] -> search docs nearest query k = Ok [])
  /\ (index_well_formed docs nearest query ->
      exists rs, search docs nearest query k = Ok rs)
  /\ (forall rs, search docs nearest query k = Ok rs ->
      Forall (fun r => (score_floor <= score r)%Q) rs
      /\ (exists hs later,
            kept (consulted nearest query) = hs ++ later
            /\ Forall2 (made_from docs) hs rs
            /\ (k = None -> later = []))
      /\ (descending (map fst (nearest query)) ->
          descending (map score rs))
      /\ (strictly_descending (map fst (filter passes (nearest query))) ->
          strictly_descending (map score rs))).
Proof.
  split; [apply search_blank|]. split.
  { intros Hok. destruct (search_ok k Hok) as [rs [_ [Hrs _]]]. eauto. }
  intros rs Hrs. destruct (search_made query k Hrs) as [n [Hmade Hall]].
  assert (Hsc : map score rs
                = firstn n (map fst (filter passes (consulted nearest query)))).
  { rewrite (made_from_scores Hmade). unfold kept.
    rewrite <- !firstn_map, kept_hits. reflexivity. }
  split; [|split; [|split]].
  - assert (H : Forall (fun s => (score_floor <= s)%Q) (map score rs)).
    { rewrite Hsc. rewrite Forall_forall. intros s Hs.
      apply in_firstn in Hs.
      pose proof (kept_above_floor (consulted nearest query)) as Hk.
      rewrite Forall_forall in Hk. auto. }
    rewrite Forall_forall in *. intros r Hr. apply H, in_map, Hr.
  - exists (firstn n (kept (consulted nearest query))),
           (skipn n (kept (consulted nearest query))).
    split; [symmetry; apply firstn_skipn|]. split; [exact Hmade|].
    intros Hk. apply skipn_all2, Hall, Hk.
  - intros Hdesc. rewrite Hsc. apply sorted_firstn, sorted_filter_fst.
    unfold consulted. destruct (strip query); [constructor | exact Hdesc].
  - intros Hdesc. rewrite Hsc. apply sorted_firstn.
    unfold consulted. destruct (strip query); [constructor | exact Hdesc].
Qed.

(** C3.  Under the contract of the index, [search] returns some list
    [rs], as long as the list of the hits that pass the floor.  When
    [rs] is empty [search_best_answer] returns the empty sentinel;
    otherwise its [best_verse] is the first result, its
    [context_verses] are the next four at most, [confidence] is the
    score of [best_verse], [total_matches] is the length of [rs], and
    [total_matches >= 1 + len(context_verses)]. *)
Theorem search_best_answer_spec (query : str) :
  index_well_formed docs nearest query ->
  exists rs, search docs nearest query None = Ok rs
    /\ (strip query <> [] ->
        length rs = length (filter passes (nearest query)))
    /\ match rs with
       | [] => search_best_answer docs nearest query = Ok None
       | best :: others =>
           exists a, search_best_answer docs nearest query = Ok (Some a)
             /\ best_verse a = best
             /\ context_verses a = firstn 4 others
             /\ length (context_verses a) <= 4
             /\ confidence a = score (best_verse a)
             /\ total_matches a = length rs
             /\ total_matches a >= 1 + length (context_verses a)
       end.
Proof.
  intros Hok. destruct (search_ok None Hok) as [rs [n [Hrs [Hsc Hn]]]].
  exists rs. split; [exact Hrs|]. split.
  - intros Hq. specialize (Hn eq_refl). unfold consulted in Hn.
    destruct (strip query); [congruence|].
    apply (f_equal (@length Q)) in Hn.
    rewrite !length_map in Hn. exact Hn.
  - unfold search_best_answer. destruct (strip query) as [|c t] eqn:E.
    + rewrite (search_blank query None E) in Hrs.
      injection Hrs as <-. reflexivity.
    + rewrite Hrs. simpl. destruct rs as [|best others]; [reflexivity|].
      eexists. split; [reflexivity|]. simpl.
      assert (Hctx : (if 1 <? S (length others)
                      then slice (best :: others) 1 5 else [])
                     = firstn 4 others).
      { unfold slice. simpl. destruct others; reflexivity. }
      rewrite Hctx. repeat split; auto.
      * rewrite length_firstn. lia.
      * rewrite length_firstn. lia.
Qed.

End RetrieverFacts.

Lemma tied_index_well_formed (query : str) :
  index_well_formed small_corpus tied_index query.
Proof.
  unfold index_well_formed, tied_index, label_ok.
  repeat constructor; simpl; lia.
Qed.

Lemma tied_index_descending (query : str) :
  descending (map fst (tied_index query)).
Proof.
  unfold descending, tied_index. simpl.
  repeat constructor. unfold Qle; simpl; lia.
Qed.

(** C4, counterexample.  The index answers with two hits of score 0.5,
    in descending order as it must; [search] returns both, and the two
    equal scores are not in strictly descending order. *)
Lemma search_ties_not_strict :
  index_well_formed small_corpus tied_index (lit "duty")
  /\ descending (map fst (tied_index (lit "duty")))
  /\ search small_corpus tied_index (lit "duty") None
     = Ok [result_of verse_2_47 (1 # 2)%Q 1; result_of verse_3_1 (1 # 2)%Q 2]
  /\ ~ strictly_descending
         (map score [result_of verse_2_47 (1 # 2)%Q 1;
                     result_of verse_3_1 (1 # 2)%Q 2]).
Proof.
  split; [apply tied_index_well_formed|].
  split; [apply tied_index_descending|].
  split; [vm_compute; reflexivity|].
  unfold strictly_descending. simpl. intros H.
  inversion H as [|? ? _ Hall]; subst.
  inversion Hall as [|? ? Hlt _]; subst.
  exact (Qlt_irrefl _ Hlt).
Qed.

Lemma ranked_index_well_formed (query : str) :
  index_well_formed small_corpus ranked_index query.
Proof.
  unfold index_well_formed, ranked_index, label_ok.
  repeat constructor; simpl; lia.
Qed.

Lemma search_floor_and_order_witness :
  search small_corpus tied_index (lit "  ") None = Ok []
  /\ (exists rs, search small_corpus ranked_index (lit "duty") None = Ok rs)
  /\ Forall (fun r => (score_floor <= score r)%Q) ranked_results
  /\ (exists hs later,
        kept (consulted ranked_index (lit "duty")) = hs ++ later
        /\ Forall2 (made_from small_corpus) hs ranked_results
        /\ later = [])
  /\ descending (map score ranked_results)
  /\ strictly_descending (map score ranked_results).
Proof.
  split.
  { apply (proj1 (search_floor_and_order small_corpus tied_index
                    (lit "  ") None)).
    vm_compute. reflexivity. }
  split.
  { apply (proj1 (proj2 (search_floor_and_order small_corpus ranked_index
                           (lit "duty") None))).
    apply ranked_index_well_formed. }
  assert (Hrs : search small_corpus ranked_index (lit "duty") None
                = Ok ranked_results) by (vm_compute; reflexivity).
  destruct (proj2 (proj2 (search_floor_and_order small_corpus ranked_index
                            (lit "duty") None)) ranked_results Hrs)
    as [Hfloor [[hs [later [Hk [Hmade Hall]]]] [Hdesc Hstrict]]].
  split; [exact Hfloor|].
  split; [exists hs, later; auto|].
  split.
  - apply Hdesc. unfold descending, ranked_index. cbn [map fst].
    repeat constructor; unfold Qle; simpl; lia.
  - apply Hstrict. unfold strictly_descending, ranked_index.
    cbn [map fst filter passes].
    vm_compute filter. repeat constructor.
Defined.

Lemma search_best_answer_spec_witness :
  exists rs, search small_corpus tied_index (lit "duty") None = Ok rs
    /\ (strip (lit "duty") <> [] ->
        length rs = length (filter passes (tied_index (lit "duty"))))
    /\ match rs with
       | [] => search_best_answer small_corpus tied_index (lit "duty")
               = Ok None
       | best :: others =>
           exists a,
             search_best_answer small_corpus tied_index (lit "duty")
             = Ok (Some a)
             /\ best_verse a = best
             /\ context_verses a = firstn 4 others
             /\ length (context_verses a) <= 4
             /\ confidence a = score (best_verse a)
             /\ total_matches a = length rs
             /\ total_matches a >= 1 + length (context_verses a)
       end.
Proof.
  apply (@search_best_answer_spec small_corpus tied_index (lit "duty")).
  unfold index_well_formed, tied_index, label_ok.
  repeat constructor; simpl; lia.
Defined.

(** ** Lookup by citation *)

Section Lookup.

Variable docs : list Doc.

Lemma scan_docs_found (ds : list Doc) (c v : Z) :
  (exists d, In d ds /\ doc_chapter d = c /\ doc_verse d = v) ->
  exists d, In d ds /\ doc_chapter d = c /\ doc_verse d = v
            /\ scan_docs ds c v = Some (result_of d 1 1).
Proof.
  induction ds as [|d0 ds IH]; intros [d [Hin [Hc Hv]]]; [destruct Hin|].
  simpl. destruct ((doc_chapter d0 =? c)%Z && (doc_verse d0 =? v)%Z) eqn:E.
  - apply andb_true_iff in E as [Ec Ev].
    apply Z.eqb_eq in Ec, Ev. exists d0. simpl. auto.
  - destruct Hin as [-> | Hin].
    + subst. rewrite !Z.eqb_refl in E. discriminate.
    + destruct IH as [d' [Hin' [Hc' [Hv' Hr]]]]; [eauto|].
      exists d'. simpl. auto.
Qed.

Lemma scan_docs_absent (ds : list Doc) (c v : Z) :
  (forall d, In d ds -> ~ (doc_chapter d = c /\ doc_verse d = v)) ->
  scan_docs ds c v = None.
Proof.
  induction ds as [|d0 ds IH]; intros H; simpl; [reflexivity|].
  destruct ((doc_chapter d0 =? c)%Z && (doc_verse d0 =? v)%Z) eqn:E.
  - apply andb_true_iff in E as [Ec Ev]. apply Z.eqb_eq in Ec, Ev.
    exfalso. apply (H d0); simpl; auto.
  - apply IH. intros d Hin. apply H. simpl; auto.
Qed.

(** C8.  For a verse [d] of the corpus, [get_verse_by_citation] at its
    chapter and verse returns a result of score 1.0 whose chapter and
    verse are the ones asked for and whose id, text and sanskrit are
    those of a stored verse with that chapter and verse: of [d] itself
    when the pairs of the corpus are unique.  For a pair that no stored
    verse carries it returns the not-found sentinel. *)
Theorem get_verse_by_citation_spec :
  (forall d, In d docs ->
     exists d' r,
       get_verse_by_citation docs (doc_chapter d) (doc_verse d) = Some r
       /\ In d' docs
       /\ doc_chapter d' = doc_chapter d /\ doc_verse d' = doc_verse d
       /\ (unique_keys docs -> d' = d)
       /\ score r = 1%Q
       /\ chapter r = doc_chapter d /\ verse r = doc_verse d
       /\ id r = doc_id d' /\ text r = doc_text d'
       /\ sanskrit r = doc_sanskrit d')
  /\ (forall c v,
        (forall d, In d docs -> ~ (doc_chapter d = c /\ doc_verse d = v)) ->
        get_verse_by_citation docs c v = None).
Proof.
  split.
  - intros d Hin.
    destruct (@scan_docs_found docs (doc_chapter d) (doc_verse d))
      as [d' [Hin' [Hc [Hv Hr]]]]; [eauto|].
    exists d', (result_of d' 1 1). unfold get_verse_by_citation.
    simpl. repeat split; auto.
  - intros c v. apply scan_docs_absent.
Qed.

End Lookup.

Lemma get_verse_by_citation_spec_witness :
  (exists r, get_verse_by_citation small_corpus 3 1 = Some r
             /\ score r = 1%Q /\ chapter r = 3%Z /\ verse r = 1%Z
             /\ id r = lit "03.01" /\ text r = doc_text verse_3_1
             /\ sanskrit r = None)
  /\ get_verse_by_citation small_corpus 18 78 = None.
Proof.
  assert (Hu : unique_keys small_corpus).
  { intros d d' [<- | [<- | []]] [<- | [<- | []]]; simpl; intros;
      try reflexivity; discriminate. }
  split.
  - destruct (proj1 (get_verse_by_citation_spec small_corpus) verse_3_1)
      as [d' [r [Hr [_ [_ [_ [Hd H]]]]]]]; [simpl; auto|].
    rewrite (Hd Hu) in H. exists r. simpl in *. tauto.
  - apply (proj2 (get_verse_by_citation_spec small_corpus)).
    intros d [<- | [<- | []]]; simpl; intros [H _]; discriminate.
Defined.

(** ** Citation reports *)

Section CitationReports.

Variable docs : list Doc.

Lemma int_of_str_cases (s : str) :
  (exists n, int_of_str s = Ok n) \/ int_of_str s = Raise ValueError.
Proof.
  unfold int_of_str.
  match goal with |- context [match ?p with Some _ => _ | None => _ end] =>
    destruct p end; eauto.
Qed.

Lemma parse_citation_cases (cit : str) :
  (exists a b c v, parts_of cit = [a; b] /\ int_of_str a = Ok c
                   /\ int_of_str b = Ok v
                   /\ parse_citation cit = Ok (c, v))
  \/ (unreadable cit /\ parse_citation cit = Raise ValueError).
Proof.
  unfold parse_citation, unreadable. fold (parts_of cit).
  destruct (parts_of cit) as [|a [|b [|x l]]];
    try (right; split; [intros ? ?; discriminate | reflexivity]).
  destruct (int_of_str_cases a) as [[c Ha] | Ha].
  - destruct (int_of_str_cases b) as [[v Hb] | Hb].
    + left. exists a, b, c, v. rewrite Ha, Hb. auto.
    + right. rewrite Ha, Hb. split; [|reflexivity].
      intros ? ? E. injection E as <- <-. auto.
  - right. rewrite Ha. split; [|reflexivity].
    intros ? ? E. injection E as <- <-. auto.
Qed.

Lemma validate_one_ok (cit : str) :
  exists r, validate_one docs cit = Ok r /\ citation r = cit
            /\ report_ok docs r.
Proof.
  unfold validate_one.
  destruct (parse_citation_cases cit)
    as [[a [b [c [v [Hp [Ha [Hb Hparse]]]]]]] | [Hun Hparse]];
    rewrite Hparse; simpl.
  - eexists. split; [reflexivity|]. split; [reflexivity|].
    unfold report_ok; simpl. split.
    + intros Hun. destruct (Hun a b Hp); congruence.
    + intros a' b' c' v' Hp' Ha' Hb'.
      rewrite Hp in Hp'. injection Hp' as <- <-.
      rewrite Ha in Ha'. rewrite Hb in Hb'.
      injection Ha' as <-. injection Hb' as <-. auto.
  - eexists. split; [reflexivity|]. split; [reflexivity|].
    unfold report_ok; simpl. split; [auto|].
    intros a b c v Hp Ha Hb. destruct (Hun a b Hp); congruence.
Qed.

(** C7, as the code has it.  [validate_citations] never raises: it
    returns one report per citation, in order.  A string that, once the
    brackets at its ends are stripped, does not split at the periods
    into exactly two parts that [int] accepts is reported as
    non-existent, with no verse data; any other string is reported by
    looking its two numbers up in the corpus, whatever its brackets. *)
Theorem validate_citations_reports (citations : list str) :
  exists reports,
    validate_citations docs citations = Ok reports
    /\ map citation reports = citations
    /\ Forall (report_ok docs) reports.
Proof.
  induction citations as [|cit rest [reports [Hv [Hm Hall]]]]; simpl.
  - exists []. auto.
  - destruct (validate_one_ok cit) as [r [Hr [Hc Hok]]].
    rewrite Hr, Hv. simpl. exists (r :: reports).
    split; [reflexivity|]. simpl. rewrite Hc, Hm. auto.
Qed.

End CitationReports.

Lemma validate_citations_reports_witness :
  exists r,
    validate_citations small_corpus [lit "[2.x]"] = Ok [r]
    /\ citation r = lit "[2.x]"
    /\ exists_ r = false /\ verse_data r = None.
Proof.
  destruct (validate_citations_reports small_corpus [lit "[2.x]"])
    as [reports [Hv [Hm Hall]]].
  destruct reports as [|r [|r' rest]]; try discriminate.
  injection Hm as Hc. inversion Hall as [|? ? [Hun _] _]; subst.
  exists r. split; [exact Hv|]. split; [exact Hc|].
  apply Hun. rewrite Hc. intros a b Hp.
  vm_compute in Hp. injection Hp as <- <-.
  right. vm_compute. reflexivity.
Defined.

(** C7, counterexample.  "2.47" has no brackets, so it is not of the
    form [[chapter.verse]]; the corpus holds verse 2.47, and the report
    says that the citation exists. *)
Lemma validate_citations_bare_number :
  exact_form (lit "2.47") = false
  /\ validate_citations small_corpus [lit "2.47"]
     = Ok [{| citation := lit "2.47"; exists_ := true;
              verse_data := Some (result_of verse_2_47 1 1) |}].
Proof. split; vm_compute; reflexivity. Qed.

(** The blanks of [int] are not those of [str.strip]: a number behind
    the separator U+001C is not read, so the citation is reported as
    non-existent, while a no-break space U+00A0 is skipped. *)
Lemma validate_citations_separator :
  int_of_str (ascii_of_N 28 :: lit "47") = Raise ValueError
  /\ int_of_str (ascii_of_N 160 :: lit "47") = Ok 47%Z
  /\ validate_citations small_corpus
       [lit "[2." ++ ascii_of_N 28 :: lit "47]"]
     = Ok [{| citation := lit "[2." ++ ascii_of_N 28 :: lit "47]";
              exists_ := false; verse_data := None |}].
Proof. repeat split; vm_compute; reflexivity. Qed.

(** ** The extractive answer *)

Section Selection.

Variable query : str.

Let query_words := set_of (words query).
Let sc := sentence_score query_words.

Lemma mem_true_iff (x : str) (l : list str) : mem x l = true <-> In x l.
Proof.
  unfold mem. destruct (in_dec str_eq_dec x l); split; auto; discriminate.
Qed.

Lemma sentence_score_shared (sentence : str) :
  shared_words (sc sentence) query sentence.
Proof.
  unfold sc, sentence_score, shared_words.
  exists (set_inter query_words (set_of (split_ws (lower sentence)))).
  split; [|split; [reflexivity|]].
  - unfold set_inter. apply NoDup_filter. apply NoDup_nodup.
  - intros w. unfold set_inter, query_words, set_of, words.
    rewrite filter_In, mem_true_iff, !nodup_In. tauto.
Qed.

Lemma scan_as_candidates (sentences : list str) (st : str * nat) :
  fold_left (scan_sentence query_words) sentences st
  = fold_left (keep_better sc)
      (filter (fun s => 20 <=? length s) (map strip sentences)) st.
Proof.
  revert st; induction sentences as [|s ss IH]; intros st; [reflexivity|].
  cbn [fold_left map filter]. rewrite IH. unfold scan_sentence.
  destruct (Nat.ltb_spec (length (strip s)) 20) as [Hlt | Hge];
    destruct (Nat.leb_spec 20 (length (strip s))) as [Hle | Hgt];
    try lia; reflexivity.
Qed.

(** The invariant of the loop: it ends either with the state it started
    from, no candidate scoring above it, or with the first candidate of
    highest score. *)
Lemma keep_better_result (cands : list str) (b : str) (n : nat) :
  (fold_left (keep_better sc) cands (b, n) = (b, n)
   /\ forall t, In t cands -> sc t <= n)
  \/ exists s before after,
       fold_left (keep_better sc) cands (b, n) = (s, sc s)
       /\ cands = before ++ s :: after
       /\ n < sc s
       /\ (forall t, In t before -> sc t <= n \/ sc t < sc s)
       /\ (forall t, In t before -> sc t < sc s)
       /\ (forall t, In t after -> sc t <= sc s).
Proof.
  revert b n; induction cands as [|c cs IH]; intros b n.
  - left. split; [reflexivity | intros t []].
  - cbn [fold_left].
    assert (Hstep : keep_better sc (b, n) c
                    = if n <? sc c then (c, sc c) else (b, n))
      by reflexivity.
    rewrite Hstep. clear Hstep.
    destruct (Nat.ltb_spec n (sc c)) as [Hlt | Hge].
    + right. destruct (IH c (sc c))
        as [[Hsame Hall] | [s [bf [af [Hf [Hc [Hn [_ [Hb Ha]]]]]]]]].
      * exists c, [], cs. rewrite Hsame.
        repeat split; auto; intros t [].
      * exists s, (c :: bf), af. rewrite Hf, Hc.
        repeat split; auto; try lia.
        -- intros t [<- | Ht]; [right; lia | right; auto].
        -- intros t [<- | Ht]; [lia | auto].
    + destruct (IH b n)
        as [[Hsame Hall] | [s [bf [af [Hf [Hc [Hn [_ [Hb Ha]]]]]]]]].
      * left. split; [exact Hsame|]. intros t [<- | Ht]; auto.
      * right. exists s, (c :: bf), af. rewrite Hf, Hc.
        repeat split; auto.
        -- intros t [<- | Ht]; [left; lia | right; auto].
        -- intros t [<- | Ht]; [lia | auto].
Qed.

Lemma candidates_nonempty (verse_text s : str) :
  In s (candidates verse_text) -> s <> [].
Proof.
  unfold candidates. rewrite filter_In. intros [_ H] ->. discriminate.
Qed.

Lemma hd_split_at_period (s : str) :
  hd [] (split_at (Ascii.eqb ".") s) = before_period s.
Proof.
  induction s as [|c s IH]; [reflexivity|].
  cbn [split_at before_period]. rewrite (Ascii.eqb_sym "." c).
  destruct (Ascii.eqb c "."); [reflexivity|].
  rewrite <- IH. destruct (split_at (Ascii.eqb ".") s); reflexivity.
Qed.

(** The sentence that [extractive_answer] quotes. *)
Lemma chosen_sentence (verse_text : str) :
  let found :=
    fst (fold_left (scan_sentence query_words)
           (re_split sentence_end verse_text) ([], 0)) in
  (first_best sc (candidates verse_text) found /\ found <> [])
  \/ (found = [] /\ forall t, In t (candidates verse_text) -> sc t = 0).
Proof.
  intros found. unfold found. rewrite scan_as_candidates.
  fold (candidates verse_text).
  destruct (keep_better_result (candidates verse_text) [] 0)
    as [[Hsame Hall] | [s [bf [af [Hf [Hc [Hn [_ [Hb Ha]]]]]]]]].
  - right. split; [exact (f_equal fst Hsame)|].
    intros t Ht. specialize (Hall t Ht). lia.
  - left. apply (f_equal fst) in Hf. cbn [fst] in Hf.
    unfold str in *. rewrite Hf. split.
    + exists bf, af. auto.
    + apply (@candidates_nonempty verse_text). rewrite Hc.
      apply in_or_app. right. left. reflexivity.
Qed.

End Selection.

Lemma related_line_eq (top : SearchResult) (others : list SearchResult) :
  (if 1 <? length (top :: others)
   then [NL; NL] ++ lit "Related guidance: "
        ++ join (lit ", ") (map cite (slice (top :: others) 1 3))
   else []) = related_line others.
Proof. destruct others; reflexivity. Qed.

(** The shape of the answer, with the sentence it quotes. *)
Lemma extractive_answer_shape
  (query : str) (top : SearchResult) (others : list SearchResult) :
  let sc := sentence_score (set_of (words query)) in
  exists sentence,
    extractive_answer query (top :: others)
    = lit "The Bhagavad Gita teaches: " ++ sentence ++ lit " "
      ++ cite top ++ related_line others
    /\ (first_best sc (candidates (text top)) sentence
        \/ ((forall t, In t (candidates (text top)) -> sc t = 0)
            /\ sentence = before_period (text top) ++ lit ".")).
Proof.
  intros sc. unfold extractive_answer.
  rewrite <- (related_line_eq top others).
  fold (words query). rewrite hd_split_at_period.
  destruct (chosen_sentence query (text top)) as [[Hbest Hne] | [Hnil Hzero]].
  - match type of Hne with ?f <> [] => exists f; destruct f eqn:E end;
      [congruence|].
    split; [|left; exact Hbest].
    destruct (1 <? length (top :: others)).
    + rewrite <- !app_assoc. reflexivity.
    + rewrite app_nil_r. reflexivity.
  - rewrite Hnil. exists (before_period (text top) ++ lit ".").
    split; [|right; auto].
    destruct (1 <? length (top :: others)).
    + rewrite <- !app_assoc. reflexivity.
    + rewrite app_nil_r. reflexivity.
Qed.

(** C5.  With no passage [extractive_answer] returns the fixed message.
    With passages it returns "The Bhagavad Gita teaches: ", a sentence,
    a space and the citation of the top passage, followed, when there
    is a second passage, by the "Related guidance" line that cites
    passages 2 and 3.  The sentence is chosen among the pieces of the
    top passage's text between runs of [.!?], trimmed and at least 20
    characters long, scored by the number of words they share with the
    query in lower case: it is the first piece of highest score when
    that score is above zero, and otherwise the text before the first
    period, closed by a period. *)
Theorem extractive_answer_spec (query : str) (passages : list SearchResult) :
  exists sc : str -> nat,
    (forall sentence, shared_words (sc sentence) query sentence)
    /\ match passages with
       | [] => extractive_answer query passages = no_verses_message
       | top :: others =>
           exists sentence,
             extractive_answer query passages
             = lit "The Bhagavad Gita teaches: " ++ sentence ++ lit " "
               ++ cite top ++ related_line others
             /\ (first_best sc (candidates (text top)) sentence
                 \/ ((forall t, In t (candidates (text top)) -> sc t = 0)
                     /\ sentence = before_period (text top) ++ lit "."))
       end.
Proof.
  exists (sentence_score (set_of (words query))).
  split; [apply sentence_score_shared|].
  destruct passages as [|top others]; [reflexivity|].
  apply extractive_answer_shape.
Qed.

(** ** Citations found in a text *)

Section CitationScan.

Lemma findall_cons (c : ascii) (s' : str) :
  findall_citations (c :: s')
  = match match_citation (c :: s') with
    | Some (g1, g2, n) => (g1, g2) :: findall_citations (skipn (n - 1) s')
    | None => findall_citations s'
    end.
Proof.
  simp findall_citations.
  destruct (match_citation (c :: s')) as [[[g1 g2] n]|]; reflexivity.
Qed.

Lemma span_digits_stop (g : str) (x : ascii) (r : str) :
  forallb isdigit g = true -> isdigit x = false ->
  span isdigit (g ++ x :: r) = (g, x :: r).
Proof.
  intros Hg Hx. induction g as [|d g IH]; cbn [app span].
  - rewrite Hx. reflexivity.
  - cbn [forallb] in Hg. apply andb_true_iff in Hg as [Hd Hg].
    rewrite Hd, (IH Hg). reflexivity.
Qed.

Lemma skipn_exact {A} (a b : list A) : skipn (length a) (a ++ b) = b.
Proof. induction a; simpl; auto. Qed.

(** The pattern matches a bracketed pair of digit runs, whatever follows. *)
Lemma match_citation_text (g1 g2 rest : str) :
  g1 <> [] -> g2 <> [] ->
  forallb isdigit g1 = true -> forallb isdigit g2 = true ->
  match_citation (lit "[" ++ g1 ++ lit "." ++ g2 ++ lit "]" ++ rest)
  = Some (g1, g2, 3 + length g1 + length g2).
Proof.
  intros H1 H2 D1 D2. change (lit "[") with ["["%char].
  change (lit ".") with ["."%char]. change (lit "]") with ["]"%char].
  cbn [app]. unfold match_citation.
  change (Ascii.eqb "[" "[") with true. cbv iota.
  rewrite (@span_digits_stop g1 "." _ D1 eq_refl).
  destruct g1 as [|a1 g1]; [congruence|].
  change (Ascii.eqb "." ".") with true. cbv iota.
  rewrite (@span_digits_stop g2 "]" _ D2 eq_refl).
  destruct g2 as [|a2 g2]; [congruence|].
  reflexivity.
Qed.

Lemma findall_citation_text (g1 g2 rest : str) :
  g1 <> [] -> g2 <> [] ->
  forallb isdigit g1 = true -> forallb isdigit g2 = true ->
  findall_citations (lit "[" ++ g1 ++ lit "." ++ g2 ++ lit "]" ++ rest)
  = (g1, g2) :: findall_citations rest.
Proof.
  intros H1 H2 D1 D2.
  pose proof (@match_citation_text g1 g2 rest H1 H2 D1 D2) as Hm.
  change (lit "[" ++ g1 ++ lit "." ++ g2 ++ lit "]" ++ rest)
    with ("["%char :: (g1 ++ lit "." ++ g2 ++ lit "]" ++ rest)) in *.
  rewrite findall_cons, Hm. f_equal. f_equal.
  replace (3 + length g1 + length g2 - 1)
    with (length (g1 ++ lit "." ++ g2 ++ lit "]")).
  - rewrite <- (skipn_exact (g1 ++ lit "." ++ g2 ++ lit "]") rest) at 2.
    rewrite <- !app_assoc. reflexivity.
  - rewrite !length_app. simpl. lia.
Qed.

(** No match begins in a stretch without an opening bracket. *)
Lemma findall_no_bracket (a b : str) :
  Forall (fun c => Ascii.eqb c "[" = false) a ->
  findall_citations (a ++ b) = findall_citations b.
Proof.
  induction a as [|c a IH]; intros H; [reflexivity|].
  inversion H as [|? ? Hc Ha]; subst.
  cbn [app]. rewrite findall_cons. unfold match_citation.
  rewrite Hc. auto.
Qed.

Lemma inert_tail (c d : ascii) (a : str) :
  inert (c :: d :: a) = true -> inert (d :: a) = true.
Proof. cbn [inert]. intros H. apply andb_true_iff in H. tauto. Qed.

Lemma inert_suffix (l s : str) :
  inert (l ++ s) = true -> s <> [] -> inert s = true.
Proof.
  induction l as [|c l IH]; intros H Hs; [exact H|].
  apply IH; [|exact Hs]. cbn [app] in H.
  destruct (l ++ s) as [|d t] eqn:E.
  - destruct l; [simpl in E; congruence | discriminate].
  - eapply inert_tail; eauto.
Qed.

(** In an inert stretch a run of digits ends inside the stretch. *)
Lemma inert_digit_run (a : str) :
  inert a = true -> a <> [] ->
  exists g x r, a = g ++ x :: r /\ forallb isdigit g = true
                /\ isdigit x = false.
Proof.
  induction a as [|c a IH]; intros H Hne; [congruence|].
  destruct (isdigit c) eqn:Hc.
  - destruct a as [|d a].
    + cbn [inert] in H. unfold pattern_inner in H. rewrite Hc in H.
      rewrite orb_true_r in H. discriminate.
    + destruct IH as [g [x [r [E [Hg Hx]]]]];
        [eapply inert_tail; eauto | discriminate |].
      exists (c :: g), x, r. rewrite E. cbn [forallb]. rewrite Hc, Hg. auto.
  - exists [], c, a. auto.
Qed.

Lemma inert_no_match (c : ascii) (a b : str) :
  inert (c :: a) = true -> match_citation (c :: a ++ b) = None.
Proof.
  intros H. unfold match_citation.
  destruct (Ascii.eqb c "[") eqn:Ec; [|reflexivity].
  destruct a as [|d a].
  { cbn [inert] in H. unfold pattern_inner in H. rewrite Ec in H.
    discriminate. }
  pose proof (@inert_tail c d a H) as Ht.
  destruct (inert_digit_run Ht ltac:(discriminate))
    as [g [x [r [E [Hg Hx]]]]].
  rewrite E, <- app_assoc. cbn [app].
  rewrite (@span_digits_stop g x _ Hg Hx).
  destruct g as [|g0 g]; [reflexivity|].
  destruct (Ascii.eqb x ".") eqn:Ex; [|reflexivity].
  apply Ascii.eqb_eq in Ex. subst x.
  assert (Hdot : inert ("."%char :: r) = true).
  { apply (@inert_suffix (g0 :: g)); [|discriminate].
    rewrite <- E. exact Ht. }
  destruct r as [|y r]; [discriminate Hdot|].
  cbn [inert] in Hdot. apply andb_true_iff in Hdot as [Hy _].
  change (Ascii.eqb "." ".") with true in Hy. cbn in Hy.
  apply negb_true_iff in Hy.
  cbn [app span]. rewrite Hy. reflexivity.
Qed.

(** No match begins in an inert stretch, whatever follows it. *)
Lemma findall_inert (a b : str) :
  inert a = true -> findall_citations (a ++ b) = findall_citations b.
Proof.
  induction a as [|c a IH]; intros H; [reflexivity|].
  cbn [app]. rewrite findall_cons, (@inert_no_match c a b H).
  destruct a as [|d a]; [reflexivity|].
  apply IH. eapply inert_tail; eauto.
Qed.

Lemma inert_closed (x : str) :
  Forall (fun c => Ascii.eqb c "." = false) x ->
  inert (x ++ lit " ") = true /\ inert (x ++ lit ". ") = true.
Proof.
  induction x as [|c x IH]; intros H.
  - split; reflexivity.
  - inversion H as [|? ? Hc Hx]; subst.
    destruct (IH Hx) as [IH1 IH2]. cbn [app inert].
    split.
    + destruct (x ++ lit " ") eqn:E.
      * destruct x; discriminate.
      * rewrite Hc, IH1. reflexivity.
    + destruct (x ++ lit ". ") eqn:E.
      * destruct x; discriminate.
      * rewrite Hc, IH2. reflexivity.
Qed.

End CitationScan.

(** ** Citations built from chapter and verse numbers *)

Section Rendering.

Lemma uint_digits (d : Decimal.uint) :
  forallb isdigit (list_ascii_of_string (NilEmpty.string_of_uint d)) = true.
Proof. induction d; simpl; auto. Qed.

Lemma digit_not_bracket (c : ascii) :
  isdigit c = true -> Ascii.eqb c "[" = false.
Proof.
  intros H.
  destruct (Ascii.eqb_spec c "["); [subst; discriminate | reflexivity].
Qed.

Lemma digits_no_bracket (g : str) :
  forallb isdigit g = true -> Forall (fun c => Ascii.eqb c "[" = false) g.
Proof.
  induction g as [|c g IH]; cbn [forallb]; intros H; constructor.
  - apply andb_true_iff in H as [H _]. apply digit_not_bracket, H.
  - apply andb_true_iff in H as [_ H]. auto.
Qed.

Lemma pos_digits (p : positive) :
  let g := list_ascii_of_string (NilZero.string_of_uint (Pos.to_uint p)) in
  g <> [] /\ forallb isdigit g = true.
Proof.
  pose proof (Unsigned.to_uint_nonnil p) as Hn.
  pose proof (uint_digits (Pos.to_uint p)) as Hd.
  destruct (Pos.to_uint p); try congruence; simpl in *;
    (split; [discriminate | exact Hd]).
Qed.

(** A number that is not negative is rendered as a run of digits. *)
Lemma str_of_int_nonneg (n : Z) :
  (0 <= n)%Z -> str_of_int n <> [] /\ forallb isdigit (str_of_int n) = true.
Proof.
  intros H. destruct n as [|p|p]; [| |lia].
  - split; [discriminate | reflexivity].
  - apply pos_digits.
Qed.

(** A negative number is rendered as a minus sign and a run of digits. *)
Lemma str_of_int_neg (n : Z) :
  (n < 0)%Z ->
  exists g, str_of_int n = "-"%char :: g /\ forallb isdigit g = true.
Proof.
  intros H. destruct n as [|p|p]; try lia.
  eexists. split; [reflexivity|]. apply pos_digits.
Qed.

Lemma str_of_int_no_bracket (n : Z) :
  Forall (fun c => Ascii.eqb c "[" = false) (str_of_int n).
Proof.
  destruct (Z.le_gt_cases 0 n) as [H | H].
  - apply digits_no_bracket, str_of_int_nonneg, H.
  - destruct (str_of_int_neg H) as [g [-> Hg]].
    constructor; [reflexivity | apply digits_no_bracket, Hg].
Qed.

Lemma match_citation_negative (c v : Z) (rest : str) :
  readable_numbers c v = false ->
  match_citation (build_citation c v ++ rest) = None.
Proof.
  intros H. unfold build_citation. rewrite <- !app_assoc.
  change (lit "[") with ["["%char]. change (lit ".") with ["."%char].
  cbn [app]. unfold match_citation.
  change (Ascii.eqb "[" "[") with true. cbv iota.
  destruct (Z.le_gt_cases 0 c) as [Hc | Hc].
  - destruct (str_of_int_nonneg Hc) as [Hne Hd].
    rewrite (@span_digits_stop (str_of_int c) "." _ Hd eq_refl).
    destruct (str_of_int c) as [|a g]; [congruence|].
    change (Ascii.eqb "." ".") with true. cbv iota.
    assert (Hv : (v < 0)%Z).
    { unfold readable_numbers in H. apply andb_false_iff in H.
      destruct H as [H | H]; apply Z.leb_gt in H; lia. }
    destruct (str_of_int_neg Hv) as [gv [-> _]]. reflexivity.
  - destruct (str_of_int_neg Hc) as [gc [-> _]]. reflexivity.
Qed.

(** What [extract_citations_from_text] finds at a built citation. *)
Lemma extract_build_citation (c v : Z) (rest : str) :
  extract_citations_from_text (build_citation c v ++ rest)
  = (if readable_numbers c v then [build_citation c v] else [])
    ++ extract_citations_from_text rest.
Proof.
  unfold extract_citations_from_text.
  destruct (readable_numbers c v) eqn:H.
  - unfold readable_numbers in H. apply andb_true_iff in H as [Hc Hv].
    apply Z.leb_le in Hc, Hv.
    destruct (str_of_int_nonneg Hc) as [Hc1 Hc2].
    destruct (str_of_int_nonneg Hv) as [Hv1 Hv2].
    unfold build_citation at 1. rewrite <- !app_assoc.
    rewrite (findall_citation_text rest Hc1 Hv1 Hc2 Hv2).
    reflexivity.
  - pose proof (match_citation_negative c v rest H) as Hm.
    unfold build_citation in *. rewrite <- !app_assoc in *.
    change (lit "[") with ["["%char] in *. cbn [app] in *.
    rewrite findall_cons, Hm.
    rewrite !app_assoc. rewrite findall_no_bracket; [reflexivity|].
    rewrite !Forall_app.
    repeat split; try apply str_of_int_no_bracket; repeat constructor.
Qed.

Lemma extract_inert (a b : str) :
  inert a = true ->
  extract_citations_from_text (a ++ b) = extract_citations_from_text b.
Proof.
  intros H. unfold extract_citations_from_text.
  rewrite findall_inert by exact H. reflexivity.
Qed.

End Rendering.

(** ** The citations of the extractive answer *)

Section AnswerCitations.

Lemma re_split_pieces (p : ascii -> bool) (insep : bool) (s : str) :
  Forall (Forall (fun c => p c = false)) (re_split_runs p insep s).
Proof.
  revert insep; induction s as [|c s IH]; intros insep; cbn [re_split_runs].
  - repeat constructor.
  - destruct (p c) eqn:E.
    + destruct insep; [apply IH | constructor; [constructor | apply IH]].
    + specialize (IH false). destruct (re_split_runs p false s).
      * repeat constructor. exact E.
      * inversion IH; subst. constructor; [constructor|]; assumption.
Qed.

Lemma lstrip_by_forall (P : ascii -> Prop) (p : ascii -> bool) (s : str) :
  Forall P s -> Forall P (lstrip_by p s).
Proof.
  induction s as [|c s IH]; intros H; cbn [lstrip_by]; [constructor|].
  destruct (p c); [|exact H]. inversion H; subst. auto.
Qed.

Lemma strip_forall (P : ascii -> Prop) (s : str) :
  Forall P s -> Forall P (strip s).
Proof.
  intros H. unfold strip, strip_by, rstrip_by.
  apply Forall_rev, lstrip_by_forall, Forall_rev, lstrip_by_forall, H.
Qed.

Lemma sentence_end_dot (c : ascii) :
  sentence_end c = false -> Ascii.eqb c "." = false.
Proof.
  unfold sentence_end. intros H.
  apply orb_false_iff in H as [H _]. apply orb_false_iff in H as [H _].
  exact H.
Qed.

Lemma candidates_dot_free (verse_text s : str) :
  In s (candidates verse_text) -> dot_free s.
Proof.
  unfold candidates. rewrite filter_In, in_map_iff.
  intros [[piece [<- Hin]] _]. apply strip_forall.
  pose proof (re_split_pieces sentence_end false verse_text) as H.
  rewrite Forall_forall in H. specialize (H piece Hin).
  eapply Forall_impl; [|exact H]. apply sentence_end_dot.
Qed.

Lemma before_period_dot_free (s : str) : dot_free (before_period s).
Proof.
  induction s as [|c s IH]; cbn [before_period]; [constructor|].
  destruct (Ascii.eqb c ".") eqn:E; constructor; assumption.
Qed.

(** The answer up to its first citation is inert. *)
Lemma answer_head_inert (query : str) (top : SearchResult)
  (others : list SearchResult) :
  exists head,
    inert head = true
    /\ extractive_answer query (top :: others)
       = head ++ cite top ++ related_line others.
Proof.
  destruct (extractive_answer_shape query top others)
    as [sentence [Heq [Hbest | [_ Hfall]]]].
  - exists ((lit "The Bhagavad Gita teaches: " ++ sentence) ++ lit " ").
    split.
    + apply inert_closed. apply Forall_app. split.
      * repeat constructor.
      * destruct Hbest as [bf [af [Hc _]]].
        apply (@candidates_dot_free (text top)). rewrite Hc.
        apply in_or_app. right. left. reflexivity.
    + rewrite Heq, <- !app_assoc. reflexivity.
  - exists ((lit "The Bhagavad Gita teaches: " ++ before_period (text top))
            ++ lit ". ").
    split.
    + apply inert_closed. apply Forall_app. split.
      * repeat constructor.
      * apply before_period_dot_free.
    + rewrite Heq, Hfall, <- !app_assoc. reflexivity.
Qed.

Lemma extract_cite (p : SearchResult) (rest : str) :
  extract_citations_from_text (cite p ++ rest)
  = cited [p] ++ extract_citations_from_text rest.
Proof.
  unfold cite, cited. cbn [flat_map]. rewrite app_nil_r.
  apply extract_build_citation.
Qed.

Lemma extract_nil : extract_citations_from_text [] = [].
Proof.
  unfold extract_citations_from_text. simp findall_citations. reflexivity.
Qed.

Lemma extract_related_line (others : list SearchResult) :
  extract_citations_from_text (related_line others)
  = cited (firstn 2 others).
Proof.
  destruct others as [|o1 [|o2 others]].
  - reflexivity.
  - unfold related_line. cbn [firstn map join].
    rewrite app_assoc, extract_inert by reflexivity.
    rewrite <- (app_nil_r (cite o1)), extract_cite, extract_nil.
    apply app_nil_r.
  - unfold related_line. cbn [firstn map join].
    rewrite app_assoc, extract_inert by reflexivity.
    rewrite extract_cite, extract_inert by reflexivity.
    rewrite <- (app_nil_r (cite o2)), extract_cite, extract_nil.
    unfold cited. cbn [flat_map]. rewrite !app_nil_r. reflexivity.
Qed.

(** The citations of the extractive answer are those of its first three
    passages that the pattern can read. *)
Lemma extractive_answer_citations (query : str) (top : SearchResult)
  (others : list SearchResult) :
  extract_citations_from_text (extractive_answer query (top :: others))
  = cited (top :: firstn 2 others).
Proof.
  destruct (answer_head_inert query top others) as [head [Hi ->]].
  rewrite extract_inert by exact Hi.
  rewrite extract_cite, extract_related_line.
  unfold cited. cbn [flat_map]. rewrite app_nil_r. reflexivity.
Qed.

Lemma cited_in (passages : list SearchResult) (c : str) :
  In c (cited passages) -> exists p, In p passages /\ c = cite p.
Proof.
  unfold cited. rewrite in_flat_map. intros [p [Hp Hc]].
  exists p. split; [exact Hp|].
  destruct (readable_numbers (chapter p) (verse p)); [|destruct Hc].
  destruct Hc as [<- | []]. reflexivity.
Qed.

Lemma answer_citations_supplied (query : str)
  (passages : list SearchResult) (c : str) :
  In c (extract_citations_from_text (extractive_answer query passages)) ->
  exists p, In p passages /\ c = cite p.
Proof.
  destruct passages as [|top others].
  - intros H. vm_compute in H. destruct H.
  - rewrite extractive_answer_citations. intros H.
    apply cited_in in H as [p [Hp ->]]. exists p. split; [|reflexivity].
    destruct Hp as [<- | Hp]; [left; reflexivity|].
    right. eapply in_firstn; eauto.
Qed.

(** C1.  Every citation that [extract_citations_from_text] finds in the
    answer of [extractive_answer] is the citation of one of the passages
    supplied, and [validate_answer] on that answer with the same
    passages reports [valid = True] and no invalid citation. *)
Theorem extractive_answer_never_fabricates
  (query : str) (passages : list SearchResult) :
  passages <> [] ->
  let answer := extractive_answer query passages in
  (forall c, In c (extract_citations_from_text answer) ->
             exists p, In p passages /\ c = cite p)
  /\ valid (validate_answer answer passages) = true
  /\ invalid_citations (validate_answer answer passages) = [].
Proof.
  intros _ answer.
  assert (Hsound : forall c, In c (extract_citations_from_text answer) ->
                             exists p, In p passages /\ c = cite p)
    by apply answer_citations_supplied.
  assert (Hinv : invalid_citations (validate_answer answer passages) = []).
  { unfold validate_answer. cbn [invalid_citations]. unfold set_diff.
    match goal with |- filter ?f ?l = [] =>
      assert (Hall : forall x, In x l -> f x = false) end.
    { intros x Hx. unfold set_of in Hx. apply nodup_In in Hx.
      destruct (Hsound x Hx) as [p [Hp ->]].
      apply negb_false_iff, mem_true_iff. unfold set_of.
      apply nodup_In, in_map, Hp. }
    revert Hall. generalize (set_of (extract_citations_from_text answer)).
    intros l Hall. induction l as [|x l IH]; [reflexivity|].
    cbn [filter]. rewrite (Hall x (or_introl eq_refl)).
    apply IH. intros y Hy. apply Hall. right. exact Hy. }
  split; [exact Hsound|]. split; [|exact Hinv].
  unfold validate_answer in *. cbn [valid invalid_citations] in *.
  rewrite Hinv. reflexivity.
Qed.

End AnswerCitations.

Lemma extractive_answer_never_fabricates_witness :
  [duty_passage] <> []
  /\ (forall c,
        In c (extract_citations_from_text
                (extractive_answer (lit "duty") [duty_passage])) ->
        exists p, In p [duty_passage] /\ c = cite p)
  /\ valid (validate_answer
              (extractive_answer (lit "duty") [duty_passage])
              [duty_passage]) = true
  /\ invalid_citations
       (validate_answer (extractive_answer (lit "duty") [duty_passage])
          [duty_passage]) = [].
Proof.
  split; [discriminate|].
  apply (@extractive_answer_never_fabricates (lit "duty") [duty_passage]).
  discriminate.
Defined.

(** * Further properties *)

(** ** Numbers written and read back *)

Section NumberRoundTrip.

Let chars (d : Decimal.uint) : str :=
  list_ascii_of_string (NilEmpty.string_of_uint d).

Lemma int_digits_step (acc : Z) (c : ascii) (s : str) :
  isdigit c = true ->
  int_digits acc false (c :: s) = int_digits (10 * acc + digit_val c) false s.
Proof. intros H. cbn [int_digits]. rewrite H. reflexivity. Qed.

Lemma int_digits_acc (d : Decimal.uint) (acc : positive) :
  int_digits (Z.pos acc) false (chars d)
  = Some (Z.pos (Pos.of_uint_acc d acc)).
Proof.
  revert acc; induction d; intros acc;
    cbn [chars NilEmpty.string_of_uint list_ascii_of_string
         Pos.of_uint_acc]; [reflexivity | ..];
    rewrite int_digits_step by reflexivity;
    match goal with
    | |- int_digits ?z false _ = Some (Z.pos (Pos.of_uint_acc _ ?q)) =>
        replace z with (Z.pos q)
          by (unfold digit_val, code; simpl N_of_ascii; lia)
    end; apply IHd.
Qed.

Lemma int_digits_uint (d : Decimal.uint) :
  int_digits 0 false (chars d) = Some (Z.of_N (Pos.of_uint d)).
Proof.
  induction d;
    cbn [chars NilEmpty.string_of_uint list_ascii_of_string Pos.of_uint];
    [reflexivity | ..];
    rewrite int_digits_step by reflexivity;
    try exact IHd;
    match goal with
    | |- int_digits ?z false _
         = Some (Z.of_N (N.pos (Pos.of_uint_acc _ ?q))) =>
        change z with (Z.pos q)
    end; apply int_digits_acc.
Qed.

Lemma digit_not_blank (c : ascii) : isdigit c = true -> int_blank c = false.
Proof.
  unfold isdigit, int_blank. intros H.
  apply andb_true_iff in H as [H1 H2].
  apply N.leb_le in H1, H2.
  repeat match goal with
         | |- context [(?a <=? ?b)%N] => destruct (N.leb_spec a b)
         | |- context [(?a =? ?b)%N] => destruct (N.eqb_spec a b)
         end; simpl; try reflexivity; lia.
Qed.

Lemma lstrip_by_keeps (p : ascii -> bool) (s : str) :
  Forall (fun c => p c = false) s -> lstrip_by p s = s.
Proof.
  intros H. destruct s as [|c s]; [reflexivity|].
  inversion H as [|? ? Hc _]; subst. cbn [lstrip_by]. rewrite Hc. reflexivity.
Qed.

Lemma strip_by_keeps (p : ascii -> bool) (s : str) :
  Forall (fun c => p c = false) s -> strip_by p s = s.
Proof.
  intros H. unfold strip_by, rstrip_by.
  rewrite (@lstrip_by_keeps p s H).
  rewrite (@lstrip_by_keeps p (rev s)) by (apply Forall_rev, H).
  apply rev_involutive.
Qed.

Lemma digits_forall (P : ascii -> Prop) (g : str) :
  (forall c, isdigit c = true -> P c) ->
  forallb isdigit g = true -> Forall P g.
Proof.
  intros HP. induction g as [|c g IH]; cbn [forallb]; intros H;
    constructor; apply andb_true_iff in H as [Hc Hg]; auto.
Qed.

(** The plain digits of a positive number read back as that number. *)
Lemma int_unsigned_pos (p : positive) :
  int_unsigned
    (list_ascii_of_string (NilZero.string_of_uint (Pos.to_uint p)))
  = Some (Z.pos p).
Proof.
  pose proof (Unsigned.to_uint_nonnil p) as Hn.
  pose proof (int_digits_uint (Pos.to_uint p)) as Hd.
  pose proof (uint_digits (Pos.to_uint p)) as Hg.
  rewrite Unsigned.of_to in Hd. unfold chars in Hd.
  assert (E : NilZero.string_of_uint (Pos.to_uint p)
              = NilEmpty.string_of_uint (Pos.to_uint p))
    by (destruct (Pos.to_uint p); try reflexivity; congruence).
  rewrite E.
  destruct (list_ascii_of_string (NilEmpty.string_of_uint (Pos.to_uint p)))
    as [|c g] eqn:Eg.
  - destruct (Pos.to_uint p); try congruence; discriminate Eg.
  - unfold int_unsigned. cbn [forallb] in Hg.
    apply andb_true_iff in Hg as [Hc _]. rewrite Hc. exact Hd.
Qed.

(** An integer written by an f-string and read by [int] is unchanged. *)
Lemma int_of_str_of_int (n : Z) : int_of_str (str_of_int n) = Ok n.
Proof.
  destruct n as [|p|p]; [reflexivity | |].
  - unfold int_of_str. destruct (pos_digits p) as [Hne Hd].
    rewrite strip_by_keeps
      by (eapply digits_forall; [apply digit_not_blank | exact Hd]).
    pose proof (int_unsigned_pos p) as Hu.
    change (str_of_int (Z.pos p))
      with (list_ascii_of_string
              (NilZero.string_of_uint (Pos.to_uint p))).
    destruct (list_ascii_of_string
                (NilZero.string_of_uint (Pos.to_uint p))) as [|c g] eqn:E;
      [congruence|].
    cbn [forallb] in Hd. apply andb_true_iff in Hd as [Hc _].
    assert (Hm : Ascii.eqb c "-" = false)
      by (destruct (Ascii.eqb_spec c "-"); [subst; discriminate | reflexivity]).
    assert (Hp : Ascii.eqb c "+" = false)
      by (destruct (Ascii.eqb_spec c "+"); [subst; discriminate | reflexivity]).
    rewrite Hm, Hp, Hu. reflexivity.
  - unfold int_of_str. destruct (pos_digits p) as [Hne Hd].
    change (str_of_int (Z.neg p))
      with ("-"%char :: list_ascii_of_string
                          (NilZero.string_of_uint (Pos.to_uint p))).
    rewrite strip_by_keeps.
    + change (Ascii.eqb "-" "-") with true. cbv iota.
      rewrite int_unsigned_pos. reflexivity.
    + constructor; [reflexivity|].
      eapply digits_forall; [apply digit_not_blank | exact Hd].
Qed.

End NumberRoundTrip.

Unset Implicit Arguments.

(** ** Citations written and read back *)

Section CitationRoundTrip.

Lemma str_of_int_numeric (n : Z) :
  Forall (fun c => numeric c = true) (str_of_int n).
Proof.
  assert (Hd : forall g, forallb isdigit g = true ->
                         Forall (fun c => numeric c = true) g).
  { intros g. apply digits_forall. intros c Hc. unfold numeric.
    rewrite Hc. reflexivity. }
  destruct (Z.le_gt_cases 0 n) as [H | H].
  - apply Hd, str_of_int_nonneg, H.
  - destruct (str_of_int_neg H) as [g [-> Hg]].
    constructor; [reflexivity | apply Hd, Hg].
Qed.

Lemma numeric_none (p : ascii -> bool) (s : str) :
  (forall c, numeric c = true -> p c = false) ->
  Forall (fun c => numeric c = true) s ->
  Forall (fun c => p c = false) s.
Proof. intros Hp H. eapply Forall_impl; [|exact H]. exact Hp. Qed.

Lemma numeric_not (x : ascii) :
  numeric x = false -> forall c, numeric c = true -> Ascii.eqb x c = false.
Proof.
  intros Hx c Hc. destruct (Ascii.eqb_spec x c); [subst; congruence|].
  reflexivity.
Qed.

Lemma split_at_none (p : ascii -> bool) (s : str) :
  Forall (fun c => p c = false) s -> split_at p s = [s].
Proof.
  induction s as [|c s IH]; intros H; [reflexivity|].
  inversion H as [|? ? Hc Hs]; subst.
  cbn [split_at]. rewrite Hc, (IH Hs). reflexivity.
Qed.

Lemma split_at_once (p : ascii -> bool) (a b : str) (x : ascii) :
  Forall (fun c => p c = false) a -> Forall (fun c => p c = false) b ->
  p x = true -> split_at p (a ++ x :: b) = [a; b].
Proof.
  intros Ha Hb Hx. induction a as [|c a IH]; cbn [app split_at].
  - rewrite Hx, (split_at_none p b Hb). reflexivity.
  - inversion Ha as [|? ? Hc Ha']; subst. rewrite Hc, (IH Ha'). reflexivity.
Qed.

Lemma strip_by_wrapped (p : ascii -> bool) (a b : ascii) (s : str) :
  p a = true -> p b = true -> Forall (fun c => p c = false) s ->
  strip_by p (a :: s ++ [b]) = s.
Proof.
  intros Ha Hb Hs. unfold strip_by, rstrip_by. cbn [lstrip_by]. rewrite Ha.
  destruct s as [|c s].
  - cbn [app lstrip_by]. rewrite Hb. reflexivity.
  - inversion Hs as [|? ? Hc _]; subst.
    cbn [app lstrip_by]. rewrite Hc.
    change (c :: s ++ [b]) with ((c :: s) ++ [b]).
    rewrite rev_app_distr. cbn [rev app lstrip_by]. rewrite Hb.
    rewrite (@lstrip_by_keeps p (rev s ++ [c]))
      by (apply (Forall_rev Hs)).
    apply (rev_involutive (c :: s)).
Qed.

(** The parser of [validate_citations] reads a built citation back. *)
Lemma parse_build_citation (c v : Z) :
  parse_citation (build_citation c v) = Ok (c, v).
Proof.
  unfold parse_citation, build_citation.
  change (lit "[" ++ str_of_int c ++ lit "." ++ str_of_int v ++ lit "]")
    with ("["%char :: str_of_int c ++ "."%char :: str_of_int v ++ ["]"%char]).
  replace (str_of_int c ++ "."%char :: str_of_int v ++ ["]"%char])
    with ((str_of_int c ++ "."%char :: str_of_int v) ++ ["]"%char])
    by (rewrite <- app_assoc; reflexivity).
  unfold strip_chars. rewrite strip_by_wrapped; try reflexivity.
  - rewrite split_at_once; try reflexivity.
    + rewrite !int_of_str_of_int. reflexivity.
    + eapply numeric_none; [|apply str_of_int_numeric].
      apply numeric_not. reflexivity.
    + eapply numeric_none; [|apply str_of_int_numeric].
      apply numeric_not. reflexivity.
  - apply Forall_app. split; [|constructor; [reflexivity|]];
      (eapply numeric_none; [|apply str_of_int_numeric]);
      intros x Hx; destruct (in_dec ascii_dec x (lit "[]")) as [Hin|];
      try reflexivity;
      destruct Hin as [<- | [<- | []]]; discriminate Hx.
Qed.

(** X1.  Writing a chapter and a verse as a citation and looking the
    citation up with [validate_citations] is the same as looking the two
    numbers up with [get_verse_by_citation]: the report says that the
    citation exists exactly when the verse is found, and carries it. *)
Theorem validate_built_citation (docs : list Doc) (c v : Z) :
  validate_citations docs [build_citation c v]
  = Ok [{| citation := build_citation c v;
           Retriever.exists_ :=
             match get_verse_by_citation docs c v with
             | Some _ => true
             | None => false
             end;
           Retriever.verse_data := get_verse_by_citation docs c v |}].
Proof.
  cbn [validate_citations]. unfold validate_one.
  rewrite parse_build_citation. reflexivity.
Qed.

(** X2.  [extract_citations_from_text] reads a built citation back: on
    the text of [build_citation] it returns that one citation when
    neither number is negative, and nothing otherwise, because the
    pattern has no place for a minus sign. *)
Theorem extract_built_citation (c v : Z) :
  extract_citations_from_text (build_citation c v)
  = if ((0 <=? c) && (0 <=? v))%Z then [build_citation c v] else [].
Proof.
  rewrite <- (app_nil_r (build_citation c v)) at 1.
  rewrite extract_build_citation, extract_nil, app_nil_r. reflexivity.
Qed.

End CitationRoundTrip.

(** ** Verse identifiers *)

Section VerseIds.

Lemma int_of_str_zero_prefix (s : str) :
  forallb isdigit s = true -> s <> [] ->
  int_of_str ("0"%char :: s) = int_of_str s.
Proof.
  intros Hd Hne. destruct s as [|c g]; [congruence|].
  pose proof Hd as Hd'. cbn [forallb] in Hd'.
  apply andb_true_iff in Hd' as [Hc _].
  assert (Hsp : Forall (fun x => int_blank x = false) (c :: g))
    by (eapply digits_forall; [apply digit_not_blank | exact Hd]).
  unfold int_of_str.
  rewrite (@strip_by_keeps int_blank (c :: g) Hsp).
  rewrite (@strip_by_keeps int_blank ("0"%char :: c :: g))
    by (constructor; [reflexivity | exact Hsp]).
  assert (Hm : Ascii.eqb c "-" = false)
    by (destruct (Ascii.eqb_spec c "-"); [subst; discriminate | reflexivity]).
  assert (Hp : Ascii.eqb c "+" = false)
    by (destruct (Ascii.eqb_spec c "+"); [subst; discriminate | reflexivity]).
  rewrite Hm, Hp. change (Ascii.eqb "0" "-") with false.
  change (Ascii.eqb "0" "+") with false. cbv iota.
  unfold int_unsigned. rewrite Hc. change (isdigit "0") with true. cbv iota.
  rewrite int_digits_step by reflexivity. reflexivity.
Qed.

(** A padded number is the number as written, with one zero in front
    when it has a single digit. *)
Lemma format_02d_cases (n : Z) :
  Schema.format_02d n = str_of_int n
  \/ ((0 <= n)%Z /\ Schema.format_02d n = "0"%char :: str_of_int n).
Proof.
  unfold Schema.format_02d.
  destruct (Z.le_gt_cases 0 n) as [H | H].
  - destruct (str_of_int_nonneg H) as [Hne Hd].
    destruct (str_of_int n) as [|c g] eqn:E; [congruence|].
    cbn [forallb] in Hd. apply andb_true_iff in Hd as [Hc _].
    assert (Hm : Ascii.eqb c "-" = false)
      by (destruct (Ascii.eqb_spec c "-"); [subst; discriminate | reflexivity]).
    rewrite Hm. destruct g as [|c' g]; cbn [length Nat.sub repeat app].
    + right. auto.
    + left. reflexivity.
  - left. destruct (str_of_int_neg H) as [g [E Hg]]. rewrite E.
    change (Ascii.eqb "-" "-") with true. cbv iota.
    destruct g as [|c' g].
    + exfalso. destruct n as [|p|p]; try lia.
      destruct (pos_digits p) as [Hne _]. apply Hne.
      injection E as E. exact E.
    + reflexivity.
Qed.

Lemma int_of_format_02d (n : Z) : int_of_str (Schema.format_02d n) = Ok n.
Proof.
  destruct (format_02d_cases n) as [-> | [H ->]].
  - apply int_of_str_of_int.
  - destruct (str_of_int_nonneg H) as [Hne Hd].
    rewrite int_of_str_zero_prefix by assumption.
    apply int_of_str_of_int.
Qed.

Lemma format_02d_numeric (n : Z) :
  Forall (fun c => numeric c = true) (Schema.format_02d n).
Proof.
  destruct (format_02d_cases n) as [-> | [_ ->]].
  - apply str_of_int_numeric.
  - constructor; [reflexivity | apply str_of_int_numeric].
Qed.

Lemma create_verse_id_parts (c v : Z) :
  split_at (Ascii.eqb ".") (Schema.create_verse_id c v)
  = [Schema.format_02d c; Schema.format_02d v].
Proof.
  unfold Schema.create_verse_id. change (lit ".") with ["."%char].
  cbn [app]. apply split_at_once; try reflexivity;
    (eapply numeric_none; [|apply format_02d_numeric]);
    apply numeric_not; reflexivity.
Qed.

(** X3.  [create_verse_id] gives different identifiers to different
    (chapter, verse) pairs; the pair can be read back from the
    identifier by splitting at the period and reading the two parts as
    integers. *)
Theorem create_verse_id_injective (c v c' v' : Z) :
  (Schema.create_verse_id c v = Schema.create_verse_id c' v' ->
   c = c' /\ v = v')
  /\ exists a b,
       split_at (Ascii.eqb ".") (Schema.create_verse_id c v) = [a; b]
       /\ int_of_str a = Ok c /\ int_of_str b = Ok v.
Proof.
  split.
  - intros H. apply (f_equal (split_at (Ascii.eqb "."))) in H.
    rewrite !create_verse_id_parts in H. injection H as Hc Hv.
    apply (f_equal int_of_str) in Hc, Hv.
    rewrite !int_of_format_02d in Hc, Hv.
    injection Hc as ->. injection Hv as ->. auto.
  - exists (Schema.format_02d c), (Schema.format_02d v).
    rewrite create_verse_id_parts, !int_of_format_02d. auto.
Qed.

End VerseIds.

(** ** What an answer cites *)

Section AnswerChecks.

(** X4.  The citations that [extract_citations_from_text] finds in the
    extractive answer are exactly those of the first three passages, in
    their order, leaving out a passage whose chapter or verse is
    negative; nothing in the quoted sentence is ever read as a
    citation. *)
Theorem extractive_answer_cites_first_three
  (query : str) (passages : list SearchResult) :
  extract_citations_from_text (extractive_answer query passages)
  = cited (firstn 3 passages).
Proof.
  destruct passages as [|top others].
  - vm_compute. reflexivity.
  - apply extractive_answer_citations.
Qed.

Lemma filter_nil_iff {A} (f : A -> bool) (l : list A) :
  filter f l = [] <-> forall x, In x l -> f x = false.
Proof.
  induction l as [|a l IH]; cbn [filter].
  - split; [intros _ x [] | reflexivity].
  - destruct (f a) eqn:E.
    + split; [discriminate|]. intros H.
      specialize (H a (or_introl eq_refl)). congruence.
    + rewrite IH. split.
      * intros H x [<- | Hx]; auto.
      * intros H x Hx. apply H. right. exact Hx.
Qed.

(** X5.  For any answer text, [validate_answer] reports [valid] exactly
    when every citation found in the answer is the citation of a
    supplied passage; its [invalid_citations] are the citations found
    in the answer that no passage carries, each listed once. *)
Theorem validate_answer_report (answer : str) (passages : list SearchResult) :
  let report := validate_answer answer passages in
  (valid report = true <->
   forall c, In c (extract_citations_from_text answer) ->
             exists p, In p passages /\ c = cite p)
  /\ (forall c, In c (invalid_citations report) <->
                In c (extract_citations_from_text answer)
                /\ ~ exists p, In p passages /\ c = cite p)
  /\ NoDup (invalid_citations report).
Proof.
  intros report.
  assert (Hmem : forall c, mem c (set_of (map cite passages)) = true <->
                           exists p, In p passages /\ c = cite p).
  { intros c. rewrite mem_true_iff. unfold set_of. rewrite nodup_In, in_map_iff.
    split; intros [p [H1 H2]]; exists p; auto. }
  assert (Hinv : forall c, In c (invalid_citations report) <->
                           In c (extract_citations_from_text answer)
                           /\ ~ exists p, In p passages /\ c = cite p).
  { intros c. unfold report, validate_answer. cbn [invalid_citations].
    unfold set_diff. rewrite filter_In. unfold set_of at 1.
    rewrite nodup_In, negb_true_iff, <- Hmem.
    destruct (mem c (set_of (map cite passages))); split;
      intros [H1 H2]; split; auto; congruence. }
  split; [|split; [exact Hinv|]].
  - unfold report, validate_answer. cbn [valid invalid_citations].
    unfold set_diff.
    rewrite Nat.eqb_eq, length_zero_iff_nil, filter_nil_iff. split.
    + intros H c Hc. apply Hmem.
      specialize (H c). unfold set_of at 1 in H. rewrite nodup_In in H.
      apply negb_false_iff, H, Hc.
    + intros H c Hc. unfold set_of at 1 in Hc. rewrite nodup_In in Hc.
      apply negb_false_iff, Hmem, H, Hc.
  - unfold report, validate_answer. cbn [invalid_citations].
    unfold set_diff. apply NoDup_filter. apply NoDup_nodup.
Qed.

End AnswerChecks.

(** ** Cleaned text *)

Section CleanedText.

Lemma sub_ws_runs_chars (P : ascii -> Prop) (b : bool) (s : str) :
  P " "%char -> Forall (fun c => isspace c = false -> P c) s ->
  Forall P (sub_ws_runs b s).
Proof.
  intros Hsp. revert b; induction s as [|c s IH]; intros b H;
    cbn [sub_ws_runs]; [constructor|].
  inversion H as [|? ? Hc Hs]; subst.
  destruct (isspace c) eqn:E.
  - destruct b; [apply IH, Hs | constructor; [exact Hsp | apply IH, Hs]].
  - constructor; [apply Hc, eq_refl | apply IH, Hs].
Qed.

Lemma printable_not_nl (c : ascii) :
  non_printable c = false -> (c = " "%char \/ isspace c = false) ->
  printable c = true.
Proof.
  unfold non_printable, printable, isspace. intros H [-> | Hs];
    [reflexivity|].
  apply negb_false_iff in H.
  destruct (N.eqb_spec (code c) 10) as [E | E].
  - rewrite E in Hs. discriminate Hs.
  - rewrite orb_false_r in H. exact H.
Qed.

Lemma squeeze_chars (P : ascii -> Prop) (text : str) :
  P " "%char -> Forall (fun c => isspace c = false -> P c) text ->
  Forall P (squeeze text).
Proof.
  intros Hsp H. apply sub_ws_runs_chars; [exact Hsp|].
  apply strip_forall. exact H.
Qed.

(** X6.  Whatever the input, the text returned by [clean_text] holds
    only the printable characters U+0020..U+007E: the newline that the
    deletion pattern spares has already been turned into a space, so no
    newline, tab or control character is ever returned. *)
Theorem clean_text_printable (text : str) :
  Forall (fun c => printable c = true) (clean_text text).
Proof.
  unfold clean_text. destruct text as [|c0 t]; [constructor|].
  fold (squeeze (c0 :: t)).
  assert (H : Forall (fun c => c = " "%char \/ isspace c = false)
                (squeeze (c0 :: t))).
  { apply squeeze_chars; [left; reflexivity|].
    apply Forall_forall. intros c _ Hc. right. exact Hc. }
  induction (squeeze (c0 :: t)) as [|c s IH]; cbn [filter]; [constructor|].
  inversion H as [|? ? Hc Hs]; subst.
  destruct (non_printable c) eqn:E; cbn [negb]; [apply IH, Hs|].
  constructor; [apply printable_not_nl; assumption | apply IH, Hs].
Qed.

Lemma filter_keeps_all {A} (f : A -> bool) (l : list A) :
  Forall (fun x => f x = true) l -> filter f l = l.
Proof.
  induction l as [|a l IH]; intros H; cbn [filter]; [reflexivity|].
  inversion H as [|? ? Ha Hl]; subst. rewrite Ha, (IH Hl). reflexivity.
Qed.

Lemma printable_kept (c : ascii) :
  printable c = true -> negb (non_printable c) = true.
Proof.
  unfold printable, non_printable. intros H. rewrite H. reflexivity.
Qed.

(** On a text of blanks and printable characters [clean_text] only
    squeezes. *)
Lemma clean_text_squeeze (text : str) :
  Forall (fun c => isspace c = true \/ printable c = true) text ->
  clean_text text = squeeze text.
Proof.
  intros H. unfold clean_text. destruct text as [|c0 t]; [reflexivity|].
  fold (squeeze (c0 :: t)). apply filter_keeps_all.
  apply (squeeze_chars (fun c => negb (non_printable c) = true));
    [reflexivity|].
  eapply Forall_impl; [|exact H].
  intros c [Hc | Hc] Hs; [congruence | apply printable_kept, Hc].
Qed.

Lemma tidy_head_kept (s : str) :
  s <> [] -> isspace (last s " "%char) = false ->
  exists d r, sub_ws_runs true s = d :: r /\ isspace d = false.
Proof.
  induction s as [|c s IH]; intros Hne Hl; [congruence|].
  cbn [sub_ws_runs]. destruct (isspace c) eqn:E.
  - destruct s as [|c' s]; [cbn in Hl; congruence|].
    apply IH; [discriminate | exact Hl].
  - eauto.
Qed.

(** Squeezing leaves a tidy text. *)
Lemma sub_ws_runs_tidy (b : bool) (s : str) :
  (s = [] \/ isspace (last s " "%char) = false) ->
  spaced (sub_ws_runs b s) = true.
Proof.
  revert b; induction s as [|c s IH]; intros b H; [reflexivity|].
  assert (Hs : s = [] \/ isspace (last s " "%char) = false).
  { destruct s as [|c' s]; [left; reflexivity | right].
    destruct H as [H | H]; [discriminate | exact H]. }
  cbn [sub_ws_runs]. destruct (isspace c) eqn:E.
  - destruct b; [apply IH, Hs|].
    cbn [spaced]. change (isspace " ") with true.
    change (Ascii.eqb " " " ") with true. cbv iota. cbn [andb].
    destruct s as [|c' s].
    + destruct H as [H | H]; [discriminate | cbn in H; congruence].
    + destruct Hs as [Hs | Hs]; [discriminate|].
      destruct (tidy_head_kept (c' :: s) ltac:(discriminate) Hs)
        as [d [r [Ed Hd]]].
      pose proof (IH true (or_intror Hs)) as IHt. rewrite Ed in *.
      rewrite Hd. exact IHt.
  - cbn [spaced]. rewrite E. cbn [andb]. apply IH, Hs.
Qed.

Lemma lstrip_by_head (p : ascii -> bool) (s : str) :
  match lstrip_by p s with
  | [] => True
  | c :: _ => p c = false
  end.
Proof.
  induction s as [|c s IH]; cbn [lstrip_by]; [exact I|].
  destruct (p c) eqn:E; [exact IH | exact E].
Qed.

Lemma last_rev_head {A} (s : list A) (c d : A) (t : list A) :
  rev s = c :: t -> last s d = c.
Proof.
  intros H. apply (f_equal (@rev A)) in H. rewrite rev_involutive in H.
  subst s. cbn [rev]. apply last_last.
Qed.

Lemma strip_ends (s : str) :
  match strip s with
  | [] => True
  | c :: _ => isspace c = false /\ isspace (last (strip s) " "%char) = false
  end.
Proof.
  unfold strip, strip_by, rstrip_by.
  pose proof (lstrip_by_head isspace s) as Hl.
  pose proof (lstrip_by_head isspace (rev (lstrip_by isspace s))) as Hr.
  destruct (lstrip_by isspace s) as [|c t] eqn:El; [exact I|].
  destruct (lstrip_by isspace (rev (c :: t))) as [|d u] eqn:Er.
  - exfalso. cbn [rev] in Er.
    assert (Hx : lstrip_by isspace (rev t ++ [c]) <> []).
    { clear Er Hr. induction (rev t) as [|x r IHr]; cbn [app lstrip_by].
      - rewrite Hl. discriminate.
      - destruct (isspace x); [exact IHr | discriminate]. }
    congruence.
  - destruct (rev (d :: u)) as [|e w] eqn:Ew.
    + apply (f_equal (@length ascii)) in Ew. rewrite length_rev in Ew.
      discriminate Ew.
    + split.
      * (* the first character is the first of the left-stripped text *)
        assert (Hsuf : exists pre, rev (c :: t) = pre ++ d :: u).
        { clear Hr El Ew. generalize (rev (c :: t)) Er.
          intros l. induction l as [|x l IHl]; cbn [lstrip_by];
            [discriminate|].
          destruct (isspace x).
          - intros H. destruct (IHl H) as [pre Hp].
            exists (x :: pre). rewrite Hp. reflexivity.
          - intros H. exists []. exact H. }
        destruct Hsuf as [pre Hp].
        apply (f_equal (@rev ascii)) in Hp.
        rewrite rev_involutive, rev_app_distr in Hp.
        rewrite Ew in Hp. cbn [app] in Hp. injection Hp as <- _. exact Hl.
      * rewrite (last_rev_head (e :: w) d " "%char u).
        -- exact Hr.
        -- rewrite <- Ew. apply rev_involutive.
Qed.

Lemma squeeze_tidy (text : str) : tidy (squeeze text) = true.
Proof.
  unfold squeeze, tidy. pose proof (strip_ends text) as H.
  destruct (strip text) as [|c t] eqn:E; [reflexivity|].
  destruct H as [Hc Hl]. cbn [sub_ws_runs]. rewrite Hc.
  rewrite Hc. cbn [negb andb].
  pose proof (sub_ws_runs_tidy false (c :: t) (or_intror Hl)) as Ht.
  cbn [sub_ws_runs] in Ht. rewrite Hc in Ht. exact Ht.
Qed.

Lemma spaced_last (t : str) :
  spaced t = true -> t <> [] -> isspace (last t " "%char) = false.
Proof.
  induction t as [|c t IH]; intros H Hne; [congruence|].
  cbn [spaced] in H. apply andb_true_iff in H as [Hc Ht].
  destruct t as [|d t].
  - cbn [last]. destruct (isspace c); [|reflexivity].
    rewrite andb_false_r in Hc. discriminate Hc.
  - apply IH; [exact Ht | discriminate].
Qed.

Lemma spaced_fixed (t : str) :
  spaced t = true ->
  sub_ws_runs false t = t
  /\ (match t with
      | [] => True
      | c :: _ => isspace c = false
      end -> sub_ws_runs true t = t).
Proof.
  induction t as [|c t IH]; intros H; [split; reflexivity|].
  cbn [spaced] in H. apply andb_true_iff in H as [Hc Ht].
  destruct (IH Ht) as [IH1 IH2]. cbn [sub_ws_runs].
  destruct (isspace c) eqn:E.
  - apply andb_true_iff in Hc as [Hsp Hnext].
    apply Ascii.eqb_eq in Hsp. subst c. split; [|intros Hf; discriminate].
    destruct t as [|d t]; [discriminate|].
    apply negb_true_iff in Hnext. rewrite (IH2 Hnext). reflexivity.
  - split; [|intros _]; rewrite IH1; reflexivity.
Qed.

(** A tidy text is left alone by squeezing. *)
Lemma squeeze_fixed (t : str) : tidy t = true -> squeeze t = t.
Proof.
  unfold tidy, squeeze. destruct t as [|c t]; [reflexivity|].
  intros H. apply andb_true_iff in H as [Hc Hs].
  apply negb_true_iff in Hc.
  assert (Hstrip : strip (c :: t) = c :: t).
  { unfold strip, strip_by, rstrip_by. cbn [lstrip_by]. rewrite Hc.
    pose proof (spaced_last (c :: t) Hs ltac:(discriminate)) as Hl.
    destruct (rev (c :: t)) as [|e w] eqn:Ew.
    - apply (f_equal (@length ascii)) in Ew. rewrite length_rev in Ew.
      discriminate Ew.
    - rewrite (last_rev_head (c :: t) e " "%char w Ew) in Hl.
      cbn [lstrip_by]. rewrite Hl. rewrite <- Ew. apply rev_involutive. }
  rewrite Hstrip. apply spaced_fixed, Hs.
Qed.

Lemma clean_text_fixed (text : str) :
  Forall (fun c => isspace c = true \/ printable c = true) text ->
  clean_text (clean_text text) = clean_text text.
Proof.
  intros H. rewrite (clean_text_squeeze text H).
  rewrite clean_text_squeeze.
  - apply squeeze_fixed, squeeze_tidy.
  - apply squeeze_chars; [right; reflexivity|].
    eapply Forall_impl; [|exact H].
    intros c [Hc | Hc] Hs; [congruence | right; exact Hc].
Qed.

(** X7.  On a text made of whitespace and printable characters only,
    [clean_text] is idempotent. *)
Theorem clean_text_idempotent_on_plain_text (text : str) :
  Forall (fun c => isspace c = true \/ printable c = true) text ->
  clean_text (clean_text text) = clean_text text.
Proof. apply clean_text_fixed. Qed.

(** X8.  From its second application on [clean_text] changes nothing:
    cleaning a text that was cleaned twice gives it back. *)
Theorem clean_text_stable_after_two (text : str) :
  clean_text (clean_text (clean_text text)) = clean_text (clean_text text).
Proof.
  apply clean_text_fixed.
  eapply Forall_impl; [|apply clean_text_printable].
  intros c Hc. right. exact Hc.
Qed.

End CleanedText.

Lemma clean_text_idempotent_on_plain_text_witness :
  Forall (fun c => isspace c = true \/ printable c = true)
    (lit "  do   your duty ")
  /\ clean_text (clean_text (lit "  do   your duty "))
     = clean_text (lit "  do   your duty ").
Proof.
  assert (H : Forall (fun c => isspace c = true \/ printable c = true)
                (lit "  do   your duty ")).
  { apply Forall_forall. intros c Hc.
    assert (Hb : forallb (fun c => isspace c || printable c)
                   (lit "  do   your duty ") = true) by reflexivity.
    rewrite forallb_forall in Hb. apply orb_true_iff, Hb, Hc. }
  split; [exact H|].
  apply (clean_text_idempotent_on_plain_text (lit "  do   your duty ") H).
Defined.

(** ** More on search *)

Section SearchHits.

Variable docs : list Doc.
Variable nearest : str -> list (Q * Z).

Lemma getitem_cases {A} (l : list A) (i : Z) :
  ((- Z.of_nat (length l) <= i < Z.of_nat (length l))%Z
   /\ exists a, getitem l i = Ok a /\ In a l)
  \/ (~ (- Z.of_nat (length l) <= i < Z.of_nat (length l))%Z
      /\ getitem l i = Raise IndexError).
Proof.
  unfold getitem.
  destruct (Z.ltb_spec i 0) as [Hneg | Hpos].
  - destruct (Z.leb_spec 0 (Z.of_nat (length l) + i)) as [H0 | H0];
      destruct (Z.ltb_spec (Z.of_nat (length l) + i) (Z.of_nat (length l)))
        as [H1 | H1]; cbn [andb]; try (right; split; [lia | reflexivity]).
    destruct (nth_error l (Z.to_nat (Z.of_nat (length l) + i))) as [a|] eqn:E.
    + left. split; [lia|]. exists a. split; [reflexivity|].
      eapply nth_error_In; eauto.
    + apply nth_error_None in E. lia.
  - destruct (Z.leb_spec 0 i) as [H0 | H0]; [|lia].
    destruct (Z.ltb_spec i (Z.of_nat (length l))) as [H1 | H1]; cbn [andb];
      [|right; split; [lia | reflexivity]].
    destruct (nth_error l (Z.to_nat i)) as [a|] eqn:E.
    + left. split; [lia|]. exists a. split; [reflexivity|].
      eapply nth_error_In; eauto.
    + apply nth_error_None in E. lia.
Qed.

Lemma shows_hit_shift (h : Q * Z) (hits : list (Q * Z)) (i : Z)
  (r : SearchResult) :
  shows_hit docs hits (i + 1) r -> shows_hit docs (h :: hits) i r.
Proof.
  intros [j [s [idx [d [Hn [Hp [Hg [Hin [Hr He]]]]]]]]].
  exists (S j), s, idx, d. repeat split; auto. rewrite Hr. lia.
Qed.

(** What the loop of [search] returns, when it returns. *)
Lemma search_loop_shows (i : Z) (hits : list (Q * Z))
  (rs : list SearchResult) :
  search_loop docs i hits = Ok rs ->
  Forall (shows_hit docs hits (i + 1)) rs
  /\ Forall (fun r => (i < rank r)%Z) rs
  /\ StronglySorted Z.lt (map rank rs).
Proof.
  revert i rs; induction hits as [|[s idx] hits IH]; intros i rs H;
    cbn [search_loop] in H.
  - injection H as <-. repeat split; constructor.
  - assert (Hskip : forall rs0, search_loop docs (i + 1) hits = Ok rs0 ->
              Forall (shows_hit docs ((s, idx) :: hits) (i + 1)) rs0
              /\ Forall (fun r => (i + 1 < rank r)%Z) rs0
              /\ StronglySorted Z.lt (map rank rs0)).
    { intros rs0 H'. destruct (IH (i + 1)%Z rs0 H') as [H1 [H2 H3]].
      split; [|split; [exact H2 | exact H3]].
      eapply Forall_impl; [|exact H1]. intros r. apply shows_hit_shift. }
    assert (Hweak : forall rs0, Forall (fun r => (i + 1 < rank r)%Z) rs0 ->
                                Forall (fun r => (i < rank r)%Z) rs0).
    { intros rs0 H0. eapply Forall_impl; [|exact H0].
      cbn beta. intros r Hr. lia. }
    destruct (Z.eqb_spec idx (-1)) as [E1 | E1].
    { destruct (Hskip rs H) as [H1 [H2 H3]]. auto. }
    destruct (below_floor s) eqn:Ef.
    { destruct (Hskip rs H) as [H1 [H2 H3]]. auto. }
    destruct (getitem_cases docs idx) as [[_ [d [Hd Hin]]] | [_ Hd]];
      rewrite Hd in H; cbn [bind] in H; [|discriminate].
    destruct (search_loop docs (i + 1) hits) as [rs'|e] eqn:El;
      cbn [bind] in H; [|discriminate].
    injection H as <-. destruct (Hskip rs' eq_refl) as [H1 [H2 H3]].
    split; [|split].
    + constructor; [|exact H1].
      exists 0%nat, s, idx, d. cbn [nth_error result_of rank].
      repeat split; auto.
      * unfold passes. cbn [fst snd]. rewrite Ef.
        destruct (Z.eqb_spec idx (-1)); [congruence | reflexivity].
      * lia.
    + constructor; [cbn; lia | apply Hweak, H2].
    + cbn [map result_of rank]. constructor; [exact H3|].
      apply Forall_map. exact H2.
Qed.

Lemma sorted_lt_firstn (n : nat) (l : list Z) :
  StronglySorted Z.lt l -> StronglySorted Z.lt (firstn n l).
Proof.
  revert l; induction n as [|n IH]; intros l H; cbn [firstn]; [constructor|].
  destruct l as [|a l]; [constructor|].
  inversion H as [|? ? Hs Hall]; subst. constructor; [apply IH, Hs|].
  rewrite Forall_forall in *. intros x Hx. apply Hall.
  eapply in_firstn; eauto.
Qed.

(** X9.  Every result of [search] shows one hit of the index: its score
    is the score of the hit, its rank is the position of the hit in the
    index's answer counted from 1, the hit has a real label and a score
    of at least 0.1, and the verse fields are copied from the stored
    verse that the label selects. *)
Theorem search_results_show_hits (query : str) (k : option Z)
  (rs : list SearchResult) :
  search docs nearest query k = Ok rs ->
  Forall (shows_hit docs (nearest query) 1) rs.
Proof.
  unfold search. destruct (strip query) as [|c t].
  - intros H. injection H as <-. constructor.
  - destruct (search_loop docs 0 (nearest query)) as [all|e] eqn:El;
      cbn [bind]; [|discriminate].
    intros H. injection H as <-.
    destruct (search_loop_shows 0 (nearest query) all El) as [H1 _].
    destruct k as [k|]; [|exact H1].
    destruct (slice_to_firstn all k) as [n ->].
    rewrite Forall_forall in *. intros r Hr. apply H1.
    eapply in_firstn; eauto.
Qed.

(** X10.  The ranks of the results of [search] grow strictly along the
    list, so no two results share a rank, and they start at 1 or
    above. *)
Theorem search_ranks_increase (query : str) (k : option Z)
  (rs : list SearchResult) :
  search docs nearest query k = Ok rs ->
  StronglySorted Z.lt (map rank rs)
  /\ Forall (fun r => (1 <= rank r)%Z) rs.
Proof.
  unfold search. destruct (strip query) as [|c t].
  - intros H. injection H as <-. split; constructor.
  - destruct (search_loop docs 0 (nearest query)) as [all|e] eqn:El;
      cbn [bind]; [|discriminate].
    intros H. injection H as <-.
    destruct (search_loop_shows 0 (nearest query) all El) as [_ [H2 H3]].
    assert (H2' : Forall (fun r => (1 <= rank r)%Z) all).
    { eapply Forall_impl; [|exact H2]. cbn beta. intros r Hr. lia. }
    destruct k as [k|]; [|auto].
    destruct (slice_to_firstn all k) as [n ->]. split.
    + rewrite <- firstn_map. apply sorted_lt_firstn, H3.
    + rewrite Forall_forall in *. intros r Hr. apply H2'.
      eapply in_firstn; eauto.
Qed.

Lemma search_loop_raises (i : Z) (hits : list (Q * Z)) :
  (exists rs, search_loop docs i hits = Ok rs
              /\ Forall (fun h => passes h = true -> in_reach docs (snd h))
                   hits)
  \/ (search_loop docs i hits = Raise IndexError
      /\ Exists (fun h => passes h = true /\ ~ in_reach docs (snd h)) hits).
Proof.
  revert i; induction hits as [|[s idx] hits IH]; intros i;
    cbn [search_loop].
  - left. exists []. split; [reflexivity | constructor].
  - destruct (IH (i + 1)%Z) as [[rs [Hrs Hall]] | [Hr Hex]].
    + destruct (Z.eqb_spec idx (-1)) as [E1 | E1].
      { left. exists rs. split; [exact Hrs|]. constructor; [|exact Hall].
        unfold passes. cbn [fst snd]. subst idx. discriminate. }
      destruct (below_floor s) eqn:Ef.
      { left. exists rs. split; [exact Hrs|]. constructor; [|exact Hall].
        unfold passes. cbn [fst snd]. rewrite Ef, andb_false_r.
        discriminate. }
      destruct (getitem_cases docs idx) as [[Hin [d [Hd _]]] | [Hout Hd]];
        rewrite Hd; cbn [bind].
      * left. rewrite Hrs. cbn [bind]. eexists. split; [reflexivity|].
        constructor; [intros _; exact Hin | exact Hall].
      * right. split; [reflexivity|]. apply Exists_cons_hd. split; [|exact Hout].
        unfold passes. cbn [fst snd]. rewrite Ef.
        destruct (Z.eqb_spec idx (-1)); [congruence | reflexivity].
    + right. split; [|apply Exists_cons_tl, Hex].
      destruct (Z.eqb_spec idx (-1)); [exact Hr|].
      destruct (below_floor s); [exact Hr|].
      destruct (getitem docs idx) as [d|e] eqn:Hd; cbn [bind].
      * rewrite Hr. reflexivity.
      * destruct (getitem_cases docs idx) as [[_ [d [Hd' _]]] | [_ Hd']];
          congruence.
Qed.

(** X11.  [search] fails in one way only: it raises [IndexError], and
    it does so exactly when the query is not blank and the index
    returned a hit that passes the floor with a label other than [-1]
    that [docs] cannot be indexed with.  A negative label within reach
    is not an error: it selects a verse counted from the end. *)
Theorem search_raises_iff (query : str) (k : option Z) :
  (forall e, search docs nearest query k = Raise e -> e = IndexError)
  /\ (search docs nearest query k = Raise IndexError <->
      strip query <> []
      /\ Exists (fun h => passes h = true /\ ~ in_reach docs (snd h))
           (nearest query)).
Proof.
  unfold search. destruct (strip query) as [|c t] eqn:E.
  - split; [intros e H; discriminate|].
    split; [discriminate | intros [H _]; congruence].
  - destruct (search_loop_raises 0 (nearest query))
      as [[rs [Hrs Hall]] | [Hr Hex]].
    + rewrite Hrs. cbn [bind]. split; [intros e H; discriminate|].
      split; [discriminate|]. intros [_ Hex]. exfalso.
      rewrite Forall_forall in Hall. apply Exists_exists in Hex.
      destruct Hex as [h [Hin [Hp Hout]]]. apply Hout, Hall; assumption.
    + rewrite Hr. cbn [bind]. split.
      * intros e H. injection H as <-. reflexivity.
      * split; [intros _; split; [discriminate | exact Hex] | reflexivity].
Qed.

(** X12.  The optional [k] only cuts the result: with [k >= 0], [search]
    returns the first [k] results of the search without [k], hence at
    most [k] of them; a negative [k] is not rejected but drops the last
    [-k] results. *)
Theorem search_limit (query : str) (k : Z) (rs : list SearchResult) :
  search docs nearest query None = Ok rs ->
  search docs nearest query (Some k)
  = Ok (if (k <? 0)%Z
        then firstn (length rs - Z.to_nat (- k)) rs
        else firstn (Z.to_nat k) rs)
  /\ ((0 <= k)%Z ->
      exists rs', search docs nearest query (Some k) = Ok rs'
                  /\ (Z.of_nat (length rs') <= k)%Z).
Proof.
  intros H.
  assert (Hk : search docs nearest query (Some k)
               = Ok (if (k <? 0)%Z
                     then firstn (length rs - Z.to_nat (- k)) rs
                     else firstn (Z.to_nat k) rs)).
  { unfold search in *. destruct (strip query) as [|c t].
    - injection H as <-. destruct (k <? 0)%Z; rewrite firstn_nil; reflexivity.
    - destruct (search_loop docs 0 (nearest query)) as [all|e];
        cbn [bind] in *; [|discriminate].
      injection H as <-. unfold slice_to.
      destruct (Z.ltb_spec k 0); [|reflexivity].
      do 2 f_equal. lia. }
  split; [exact Hk|]. intros Hpos. rewrite Hk.
  destruct (Z.ltb_spec k 0); [lia|].
  eexists. split; [reflexivity|].
  pose proof (firstn_le_length (Z.to_nat k) rs). lia.
Qed.

(** X13.  Under the contract of the index and with hits listed by
    descending score, the bundle of [search_best_answer] holds the best
    verse of the whole search: its [confidence] is at least 0.1, and no
    result of [search], in the context window or beyond it, scores
    higher. *)
Theorem best_answer_is_best (query : str) (a : BestAnswer) :
  index_well_formed docs nearest query ->
  descending (map fst (nearest query)) ->
  search_best_answer docs nearest query = Ok (Some a) ->
  (score_floor <= confidence a)%Q
  /\ exists rs, search docs nearest query None = Ok rs
       /\ Forall (fun r => (score r <= confidence a)%Q) rs
       /\ Forall (fun r => (score r <= confidence a)%Q) (context_verses a).
Proof.
  intros Hok Hdesc Hbest.
  destruct (@search_ok docs nearest query None Hok)
    as [rs [n [Hrs [_ Hsc]]]].
  specialize (Hsc eq_refl).
  assert (Hfloor : Forall (fun s => (score_floor <= s)%Q) (map score rs)).
  { rewrite Hsc. apply kept_above_floor. }
  assert (Hsorted : descending (map score rs)).
  { rewrite Hsc. apply sorted_filter_fst. unfold consulted.
    destruct (strip query); [constructor | exact Hdesc]. }
  unfold search_best_answer in Hbest.
  destruct (strip query) as [|c t]; [discriminate|].
  rewrite Hrs in Hbest. cbn [bind] in Hbest.
  destruct rs as [|best others]; [discriminate|].
  injection Hbest as <-. cbn [confidence context_verses].
  cbn [map] in Hfloor, Hsorted.
  inversion Hfloor as [|? ? Hb _]; subst.
  inversion Hsorted as [|? ? _ Hle]; subst.
  assert (Hothers : Forall (fun r => (score r <= score best)%Q) others).
  { rewrite Forall_forall in *. intros r Hr. apply Hle, in_map, Hr. }
  split; [exact Hb|]. exists (best :: others).
  split; [exact Hrs|]. split.
  - constructor; [apply Qle_refl | exact Hothers].
  - destruct others as [|o os]; [constructor|].
    change (Forall (fun r => (score r <= score best)%Q)
              (firstn 4 (o :: os))).
    rewrite Forall_forall in *.
    intros r Hr. apply Hothers. eapply in_firstn; eauto.
Qed.

End SearchHits.

(** ** The safety filter and the answers *)

Section FilterAndAnswers.

(** X14.  Text added before or after an unsafe query cannot make it
    safe: once a keyword occurs, [safety_check] stays [False]. *)
Theorem safety_check_extension (before query after : str) :
  safety_check query = false ->
  safety_check (before ++ query ++ after) = false.
Proof.
  unfold safety_check. rewrite !safety_scan_false.
  intros [k [Hin Hc]]. exists k. split; [exact Hin|].
  apply contains_iff in Hc as [l [r Hq]]. apply contains_iff.
  exists (lower before ++ l), (r ++ lower after).
  unfold lower in *. rewrite !map_app, Hq, <- !app_assoc. reflexivity.
Qed.

Lemma extractive_answer_nonempty (query : str)
  (passages : list SearchResult) :
  extractive_answer query passages <> [].
Proof.
  destruct passages as [|top others]; [discriminate|].
  destruct (extractive_answer_shape query top others) as [sentence [-> _]].
  discriminate.
Qed.

Lemma answer_never_empty
  (gemini openai ollama : str -> str -> option str)
  (query : str) (passages : list SearchResult) (model_type : str) :
  generate_answer gemini openai ollama query passages model_type <> [].
Proof.
  assert (Hor : forall a, answer_or a (extractive_answer query passages)
                          <> []).
  { intros [[|c a]|]; cbn [answer_or]; try discriminate;
      apply extractive_answer_nonempty. }
  unfold generate_answer. destruct passages as [|p ps]; [discriminate|].
  destruct (str_eqb model_type (lit "gemini")); [apply Hor|].
  destruct (str_eqb model_type (lit "openai")); [apply Hor|].
  destruct (str_eqb model_type (lit "ollama")); [apply Hor|].
  apply extractive_answer_nonempty.
Qed.

(** X15.  [generate_answer] never returns the empty string, whatever
    the mode and whatever the back ends return: an empty reply of a
    back end is replaced by the extractive answer. *)
Theorem generate_answer_nonempty
  (gemini openai ollama : str -> str -> option str)
  (query : str) (passages : list SearchResult) (model_type : str) :
  generate_answer gemini openai ollama query passages model_type <> [].
Proof. apply answer_never_empty. Qed.

(** X16.  The fallback answer of the Ollama answerer cites its first
    passage and, unlike the extractive answer, repeats the whole verse
    text: the citations found in it are that of the passage followed by
    every citation written in the verse text itself. *)
Theorem ollama_fallback_citations (best : SearchResult)
  (others : list SearchResult) :
  extract_citations_from_text
    (OllamaAnswerer.fallback_answer (best :: others))
  = cited [best] ++ extract_citations_from_text (text best).
Proof.
  unfold OllamaAnswerer.fallback_answer.
  rewrite extract_inert by reflexivity.
  rewrite extract_cite, extract_inert by reflexivity.
  reflexivity.
Qed.

End FilterAndAnswers.

(** ** The length of a context block *)

Section ContextLength.

Import Context.

Lemma len_app (a b : str) : len (a ++ b) = (len a + len b)%Z.
Proof. unfold len. rewrite length_app. lia. Qed.

Lemma len_nonneg (a : str) : (0 <= len a)%Z.
Proof. unfold len. lia. Qed.

Lemma join_accounted (parts : list str) :
  parts <> [] -> (len (join [NL; NL] parts) + 9 <= accounted parts)%Z.
Proof.
  induction parts as [|p ps IH]; intros Hne; [congruence|].
  destruct ps as [|q ps].
  - cbn [join accounted]. lia.
  - change (join [NL; NL] (p :: q :: ps))
      with (p ++ [NL; NL] ++ join [NL; NL] (q :: ps)).
    cbn [accounted] in *. rewrite !len_app.
    specialize (IH ltac:(discriminate)).
    change (len [NL; NL]) with 2%Z. lia.
Qed.

Lemma context_parts_full (max_length current : Z)
  (results : list SearchResult) :
  (max_length <= current)%Z -> context_parts max_length current results = [].
Proof.
  intros H. destruct results as [|r rest]; [reflexivity|].
  cbn [context_parts].
  pose proof (len_nonneg (text r)). pose proof (len_nonneg (cite r)).
  destruct (Z.ltb_spec max_length
              (current + len (text r) + len (cite r) + 10)); [|lia].
  destruct (Z.ltb_spec 100 (max_length - current - len (cite r) - 10));
    [lia | reflexivity].
Qed.

(** The count kept by the loop runs over the limit by three at most. *)
Lemma context_parts_accounted (max_length current : Z)
  (results : list SearchResult) :
  context_parts max_length current results <> [] ->
  (current + accounted (context_parts max_length current results)
   <= max_length + 3)%Z.
Proof.
  revert current; induction results as [|r rest IH]; intros current;
    cbn [context_parts]; [congruence|].
  pose proof (len_nonneg (text r)) as Ht.
  pose proof (len_nonneg (cite r)) as Hc.
  destruct (Z.ltb_spec max_length
              (current + len (text r) + len (cite r) + 10)) as [Hover | Hfit].
  - destruct (Z.ltb_spec 100 (max_length - current - len (cite r) - 10))
      as [Hroom | Hnone]; [|congruence].
    intros _.
    set (remaining := (max_length - current - len (cite r) - 10)%Z) in *.
    assert (Hcut : len (firstn (Z.to_nat remaining) (text r)) = remaining).
    { unfold len in *. rewrite length_firstn. lia. }
    rewrite !len_app, Hcut. change (len (lit "...")) with 3%Z.
    rewrite context_parts_full by lia.
    cbn [accounted]. rewrite !len_app, Hcut.
    change (len (lit " ")) with 1%Z. change (len (lit "...")) with 3%Z.
    lia.
  - intros _. cbn [accounted]. rewrite !len_app.
    change (len (lit " ")) with 1%Z.
    destruct (context_parts max_length
                (current + len (text r) + len (cite r) + 10) rest)
      as [|q qs] eqn:E.
    + cbn [accounted]. lia.
    + specialize (IH (current + len (text r) + len (cite r) + 10)%Z).
      rewrite E in IH. specialize (IH ltac:(discriminate)). lia.
Qed.

(** X17.  The context block of [get_context_for_generation] is never
    longer than the limit it is given: for a limit that is not negative
    the returned string has at most [max_length] characters (six less,
    when it is not empty), the last verse being cut and closed with
    three periods when it does not fit. *)
Theorem context_within_limit (results : list SearchResult)
  (max_length : Z) :
  (0 <= max_length)%Z ->
  (len (get_context_for_generation results max_length) <= max_length)%Z
  /\ (get_context_for_generation results max_length <> [] ->
      (len (get_context_for_generation results max_length)
       <= max_length - 6)%Z).
Proof.
  intros Hmax. unfold get_context_for_generation.
  destruct results as [|r rest]; [split; [exact Hmax | congruence]|].
  destruct (context_parts max_length 0 (r :: rest)) as [|p ps] eqn:E.
  - split; [exact Hmax | intros H; exfalso; apply H; reflexivity].
  - pose proof (context_parts_accounted max_length 0 (r :: rest)) as Ha.
    rewrite E in Ha. specialize (Ha ltac:(discriminate)).
    pose proof (join_accounted (p :: ps) ltac:(discriminate)) as Hj.
    split; [|intros _]; lia.
Qed.

End ContextLength.

Lemma context_within_limit_witness :
  (0 <= 120)%Z
  /\ (Context.len (Context.get_context_for_generation
                     [duty_passage; duty_passage; duty_passage] 120)
      <= 120)%Z.
Proof.
  split; [lia|].
  apply (proj1 (context_within_limit
                  [duty_passage; duty_passage; duty_passage] 120
                  ltac:(lia))).
Defined.

(** ** The query handler of the application *)

Section QueryHandler.

Variable docs : list Doc.
Variable nearest : str -> list (Q * Z).
Variables gemini openai ollama : str -> str -> option str.

(** Under the contract of the index [search_best_answer] returns the
    sentinel, or a bundle with at most four context verses. *)
Lemma best_answer_cases (query : str) :
  index_well_formed docs nearest query ->
  search_best_answer docs nearest query = Ok None
  \/ exists a, search_best_answer docs nearest query = Ok (Some a)
               /\ length (context_verses a) <= 4.
Proof.
  intros Hok. destruct (@search_ok docs nearest query None Hok)
    as [rs [n [Hrs _]]].
  unfold search_best_answer. destruct (strip query) as [|c t];
    [left; reflexivity|].
  rewrite Hrs. cbn [bind]. destruct rs as [|best others];
    [left; reflexivity|].
  right. eexists. split; [reflexivity|]. cbn [context_verses].
  destruct others as [|o os]; [cbn; lia|].
  change (length (firstn 4 (o :: os)) <= 4). apply firstn_le_length.
Qed.

Lemma slice_to_le {A} (l : list A) (k : Z) : length (slice_to l k) <= length l.
Proof.
  destruct (slice_to_firstn l k) as [n ->]. rewrite length_firstn. lia.
Qed.

(** X18.  Under the contract of the index [process_query] always
    returns: an answer that is not empty, with at most five sources.
    For a query that the safety filter rejects the answer is the fixed
    deflection message and there are no sources, whatever the index
    holds. *)
Theorem process_query_returns (query model_type : str) (k : Z) :
  index_well_formed docs nearest query ->
  exists answer sources,
    App.process_query docs nearest gemini openai ollama query model_type k
    = Ok (answer, sources)
    /\ answer <> []
    /\ length sources <= 5
    /\ (safety_check query = false ->
        answer = App.deflection_message /\ sources = []).
Proof.
  intros Hok. unfold App.process_query.
  destruct (safety_check query) eqn:Es; cbn [negb].
  - destruct (best_answer_cases query Hok) as [-> | [a [-> Hctx]]];
      cbn [bind].
    + exists App.no_match_message, []. repeat split; try discriminate.
      cbn. lia.
    + eexists. eexists. split; [reflexivity|].
      split; [apply answer_never_empty|]. split; [|discriminate].
      destruct (k =? 0)%Z.
      * cbn [length]. lia.
      * pose proof (slice_to_le (best_verse a :: context_verses a) k) as H.
        cbn [length] in H. lia.
  - exists App.deflection_message, []. repeat split; try discriminate.
    cbn. lia.
Qed.

Lemma valid_when_supplied (answer : str) (passages : list SearchResult) :
  (forall c, In c (extract_citations_from_text answer) ->
             exists p, In p passages /\ c = cite p) ->
  valid (validate_answer answer passages) = true.
Proof.
  intros H. unfold validate_answer. cbn [valid]. unfold set_diff.
  rewrite Nat.eqb_eq, length_zero_iff_nil, filter_nil_iff.
  intros c Hc. unfold set_of at 1 in Hc. rewrite nodup_In in Hc.
  destruct (H c Hc) as [p [Hp ->]].
  apply negb_false_iff, mem_true_iff. unfold set_of.
  apply nodup_In, in_map, Hp.
Qed.

Lemma generate_without_text (query : str) (passages : list SearchResult)
  (model_type : str) :
  (forall backend,
     backend_for gemini openai ollama model_type = Some backend ->
     forall context, no_text (backend query context)) ->
  generate_answer gemini openai ollama query passages model_type
  = match passages with
    | [] => no_verses_message
    | _ => extractive_answer query passages
    end.
Proof.
  intros Hdown. unfold generate_answer. unfold backend_for in Hdown.
  destruct passages as [|p ps]; [reflexivity|].
  destruct (str_eqb model_type (lit "gemini")).
  { apply answer_or_no_text, Hdown; reflexivity. }
  destruct (str_eqb model_type (lit "openai")).
  { apply answer_or_no_text, Hdown; reflexivity. }
  destruct (str_eqb model_type (lit "ollama")).
  { apply answer_or_no_text, Hdown; reflexivity. }
  reflexivity.
Qed.

(** X19.  When no back end produces text (mode "extractive", an unknown
    mode, or a back end that is down) and [k] is not negative, the
    answer of [process_query] cites nothing but its sources:
    [validate_answer] on the answer and the sources reports [valid].
    The answer is built from the best verse alone, and the best verse
    is the first source. *)
Theorem process_query_cites_sources
  (query model_type : str) (k : Z) (answer : str)
  (sources : list SearchResult) :
  (0 <= k)%Z ->
  (forall backend,
     backend_for gemini openai ollama model_type = Some backend ->
     forall context, no_text (backend query context)) ->
  App.process_query docs nearest gemini openai ollama query model_type k
  = Ok (answer, sources) ->
  valid (validate_answer answer sources) = true.
Proof.
  intros Hk Hdown. unfold App.process_query.
  destruct (safety_check query); cbn [negb].
  - destruct (search_best_answer docs nearest query) as [[a|]|e];
      cbn [bind]; try discriminate.
    + cbv zeta.
      remember (generate_answer gemini openai ollama query [best_verse a]
                  model_type) as ans eqn:Ea.
      remember (if (k =? 0)%Z
                then best_verse a :: context_verses a
                else slice_to (best_verse a :: context_verses a) k)
        as src eqn:Es.
      intros H. injection H as <- <-. subst ans src.
      rewrite (generate_without_text query [best_verse a] model_type Hdown).
      apply valid_when_supplied. intros c Hc.
      rewrite (extractive_answer_citations query (best_verse a) []) in Hc.
      apply cited_in in Hc as [p [[<- | []] ->]].
      exists (best_verse a). split; [|reflexivity].
      destruct (Z.eqb_spec k 0); [left; reflexivity|].
      unfold slice_to. destruct (Z.ltb_spec k 0); [lia|].
      destruct (Z.to_nat k) as [|m] eqn:En; [lia|]. left. reflexivity.
    + intros H. injection H as <- <-. vm_compute. reflexivity.
  - intros H. injection H as <- <-. vm_compute. reflexivity.
Qed.

End QueryHandler.

(** ** The evaluation script *)

Section Evaluation.

Lemma filter_all_iff {A} (f : A -> bool) (l : list A) :
  length (filter f l) = length l <-> forall x, In x l -> f x = true.
Proof.
  split.
  - intros H. apply filter_length_forallb in H.
    rewrite forallb_forall in H. exact H.
  - intros H. rewrite filter_keeps_all; [reflexivity|].
    apply Forall_forall. exact H.
Qed.

Lemma ratio_bounds (h e : nat) :
  h <= e -> 0 < e ->
  (0 <= inject_Z (Z.of_nat h) / inject_Z (Z.of_nat e))%Q
  /\ (inject_Z (Z.of_nat h) / inject_Z (Z.of_nat e) <= 1)%Q
  /\ ((inject_Z (Z.of_nat h) / inject_Z (Z.of_nat e) == 1)%Q <-> h = e).
Proof.
  intros Hle Hpos.
  assert (He : (0 < inject_Z (Z.of_nat e))%Q).
  { change 0%Q with (inject_Z 0). rewrite <- Zlt_Qlt. lia. }
  assert (Hne : ~ (inject_Z (Z.of_nat e) == 0)%Q).
  { intros H. rewrite H in He. exact (Qlt_irrefl _ He). }
  split; [|split].
  - apply Qle_shift_div_l; [exact He|]. rewrite Qmult_0_l.
    change 0%Q with (inject_Z 0). rewrite <- Zle_Qle. lia.
  - apply Qle_shift_div_r; [exact He|]. rewrite Qmult_1_l.
    rewrite <- Zle_Qle. lia.
  - split.
    + intros H.
      assert (H' : (inject_Z (Z.of_nat h) == inject_Z (Z.of_nat e))%Q).
      { rewrite <- (Qmult_div_r (inject_Z (Z.of_nat h))
                      (inject_Z (Z.of_nat e)) Hne).
        rewrite H. apply Qmult_1_r. }
      apply (proj1 (inject_Z_injective _ _)) in H'. apply Nat2Z.inj, H'.
    + intros ->. unfold Qdiv. apply Qmult_inv_r, Hne.
Qed.

(** X20.  In the report of the evaluation script the coverage lies
    between 0 and 1; it is 1 exactly when the list of expected
    citations is not empty and each of them is found in the answer; and
    [unexpected] is empty exactly when every citation found in the
    answer is an expected one. *)
Theorem eval_coverage (answer : str) (expected : list str) :
  let report := EvalScript.validate_citations answer expected in
  (0 <= EvalScript.coverage report)%Q
  /\ (EvalScript.coverage report <= 1)%Q
  /\ ((EvalScript.coverage report == 1)%Q <->
      expected <> []
      /\ forall c, In c expected ->
                   In c (extract_citations_from_text answer))
  /\ (EvalScript.unexpected report = [] <->
      forall c, In c (extract_citations_from_text answer) ->
                In c expected).
Proof.
  intros report. unfold report, EvalScript.validate_citations.
  cbn [EvalScript.coverage EvalScript.unexpected].
  assert (Hun : filter (fun c => negb (mem c expected))
                  (extract_citations_from_text answer) = [] <->
                forall c, In c (extract_citations_from_text answer) ->
                          In c expected).
  { rewrite filter_nil_iff. split; intros H c Hc.
    - apply mem_true_iff, negb_false_iff, H, Hc.
    - apply negb_false_iff, mem_true_iff, H, Hc. }
  destruct expected as [|e0 es].
  - split; [apply Qle_refl|]. split; [unfold Qle; cbn; lia|].
    split; [|exact Hun]. split.
    + intros H. unfold Qeq in H. cbn in H. lia.
    + intros [H _]. congruence.
  - set (found := extract_citations_from_text answer) in *.
    set (expected := e0 :: es) in *.
    destruct (ratio_bounds
                (length (filter (fun c => mem c found) expected))
                (length expected)
                (filter_length_le _ _) ltac:(cbn; lia))
      as [H0 [H1 Heq]].
    split; [exact H0|]. split; [exact H1|]. split; [|exact Hun].
    rewrite Heq, filter_all_iff. split.
    + intros H. split; [discriminate|].
      intros c Hc. apply mem_true_iff, H, Hc.
    + intros [_ H] c Hc. apply mem_true_iff, H, Hc.
Qed.

Lemma get_set_item {V} (d : Schema.dict V) (k k' : str) (v : V) :
  Schema.get (EvalScript.set_item d k v) k'
  = if str_eqb k k' then Some v else Schema.get d k'.
Proof.
  induction d as [|[k0 v0] d IH]; cbn [EvalScript.set_item Schema.get].
  - destruct (str_eqb k k'); reflexivity.
  - unfold str_eqb in *.
    destruct (str_eq_dec k0 k) as [-> | Hk]; cbn [Schema.get];
      unfold str_eqb.
    + destruct (str_eq_dec k k'); reflexivity.
    + destruct (str_eq_dec k0 k') as [-> | Hk'].
      * destruct (str_eq_dec k k'); [congruence | reflexivity].
      * exact IH.
Qed.

(** The entry that [test_verse_existence] computes for a citation says
    what the report of the retriever's [validate_citations] says. *)
Lemma existence_of_report (docs : list Doc) (cit : str) :
  exists e r,
    EvalScript.existence_of docs cit = Ok e
    /\ validate_one docs cit = Ok r
    /\ EvalScript.exists_ e = Retriever.exists_ r
    /\ EvalScript.verse_data e = Retriever.verse_data r.
Proof.
  unfold EvalScript.existence_of, validate_one.
  destruct (parse_citation_cases cit)
    as [[a [b [c [v [_ [_ [_ Hp]]]]]]] | [_ Hp]];
    rewrite Hp; cbn [bind catch]; eexists; eexists; repeat split.
Qed.

Lemma existence_loop_result (docs : list Doc) (citations : list str)
  (acc : Schema.dict EvalScript.Existence) :
  exists results,
    EvalScript.existence_loop docs citations acc = Ok results
    /\ forall c,
         (In c citations ->
          exists e, Schema.get results c = Some e
                    /\ EvalScript.existence_of docs c = Ok e)
         /\ (~ In c citations -> Schema.get results c = Schema.get acc c).
Proof.
  revert acc; induction citations as [|cit rest IH]; intros acc;
    cbn [EvalScript.existence_loop].
  - exists acc. split; [reflexivity|]. intros c. split; [intros [] | auto].
  - destruct (existence_of_report docs cit) as [e [_ [He _]]].
    rewrite He. cbn [bind].
    destruct (IH (EvalScript.set_item acc cit e)) as [results [Hr Hall]].
    exists results. split; [exact Hr|]. intros c.
    destruct (Hall c) as [Hin Hout]. split.
    + intros [<- | Hc]; [|auto].
      destruct (in_dec str_eq_dec cit rest) as [Hc | Hc]; [auto|].
      exists e. split; [|exact He].
      rewrite (Hout Hc), get_set_item. unfold str_eqb.
      destruct (str_eq_dec cit cit); [reflexivity | congruence].
    + intros Hn. rewrite Hout by (intros H; apply Hn; right; exact H).
      rewrite get_set_item. unfold str_eqb.
      destruct (str_eq_dec cit c) as [-> | _]; [|reflexivity].
      exfalso. apply Hn. left. reflexivity.
Qed.

(** X21.  [test_verse_existence] of the evaluation script never raises,
    its dictionary has an entry for each citation of the list and for
    nothing else, and each entry agrees with the report that the
    retriever's [validate_citations] gives for that citation: the same
    [exists] flag and the same verse data. *)
Theorem test_verse_existence_agrees (docs : list Doc)
  (citations : list str) :
  exists results,
    EvalScript.test_verse_existence docs citations = Ok results
    /\ forall c,
         (In c citations ->
          exists e r,
            Schema.get results c = Some e
            /\ validate_citations docs [c] = Ok [r]
            /\ EvalScript.exists_ e = Retriever.exists_ r
            /\ EvalScript.verse_data e = Retriever.verse_data r)
         /\ (~ In c citations -> Schema.get results c = None).
Proof.
  unfold EvalScript.test_verse_existence.
  destruct (existence_loop_result docs citations []) as [results [Hr Hall]].
  exists results. split; [exact Hr|]. intros c.
  destruct (Hall c) as [Hin Hout]. split; [|exact Hout].
  intros Hc. destruct (Hin Hc) as [e [Hg He]].
  destruct (existence_of_report docs c) as [e' [r [He' [Hv [H1 H2]]]]].
  rewrite He in He'. injection He' as <-.
  exists e, r. split; [exact Hg|]. split; [|split; assumption].
  cbn [validate_citations]. rewrite Hv. reflexivity.
Qed.

End Evaluation.

(** ** Records of the dataset *)

Section DatasetRecords.

Import Schema.

(** X22.  [normalize_schema] is idempotent, and the record it returns
    has canonical keys only: its keys are those of "chapter", "verse",
    "sanskrit", "hindi" and "english" that it found, in that order and
    each at most once; the value under a canonical key is the value
    under the first spelling of that key that the input has. *)
Theorem normalize_schema_idempotent {V} (data : dict V) :
  normalize_schema (normalize_schema data) = normalize_schema data
  /\ (exists keep : str -> bool,
        map fst (normalize_schema data)
        = filter keep (map fst field_mappings))
  /\ (forall m, In m field_mappings ->
                get (normalize_schema data) (fst m)
                = first_present data (snd m)).
Proof.
  unfold normalize_schema at 2 3 4. unfold field_mappings.
  cbn [flat_map fst snd].
  destruct (first_present data (map lit ["chapter"; "Chapter"; "ch"]%string))
    as [v1|] eqn:E1;
  destruct (first_present data (map lit ["verse"; "Verse"; "v"]%string))
    as [v2|] eqn:E2;
  destruct (first_present data
              (map lit ["sanskrit"; "Sanskrit"; "sa"]%string))
    as [v3|] eqn:E3;
  destruct (first_present data (map lit ["hindi"; "Hindi"; "hi"]%string))
    as [v4|] eqn:E4;
  destruct (first_present data
              (map lit ["english"; "English"; "en"; "translation"]%string))
    as [v5|] eqn:E5;
  (split; [reflexivity|]);
  (split;
   [match goal with
    | |- context [map fst ?l = _] =>
        exists (fun k => mem k (map fst l))
    end; vm_compute; reflexivity|]);
  intros m [<- | [<- | [<- | [<- | [<- | []]]]]];
  unfold normalize_schema, field_mappings; cbn [flat_map fst snd];
  rewrite ?E1, ?E2, ?E3, ?E4, ?E5; reflexivity.
Qed.

Lemma int_of_value_truth (v : value) (n : Z) :
  int_of_value v = Some n -> (1 <= n)%Z -> truth v = true.
Proof.
  destruct v as [|m|s]; cbn [int_of_value truth]; [discriminate | |].
  - intros H Hn. injection H as ->. destruct (Z.eqb_spec n 0); [lia|].
    reflexivity.
  - destruct s; [|reflexivity]. vm_compute. discriminate.
Qed.

(** X23.  [validate_verse_data] returns [True] exactly for a record
    whose chapter reads as an integer from 1 to 18, whose verse reads
    as an integer of at least 1, and whose text is a string with a
    character that is not blank.  It does not always return: a record
    with a good chapter and verse whose text is a number other than 0
    makes it raise [AttributeError]. *)
Theorem validate_verse_data_true (verse_data : dict value) :
  (validate_verse_data verse_data = Returns true <->
   exists c v s chapter verse,
     get verse_data (lit "chapter") = Some c
     /\ get verse_data (lit "verse") = Some v
     /\ get verse_data (lit "text") = Some (VStr s)
     /\ int_of_value c = Some chapter /\ (1 <= chapter <= 18)%Z
     /\ int_of_value v = Some verse /\ (1 <= verse)%Z
     /\ strip s <> [])
  /\ (validate_verse_data verse_data = AttributeError <->
      exists c v n chapter verse,
        get verse_data (lit "chapter") = Some c
        /\ get verse_data (lit "verse") = Some v
        /\ get verse_data (lit "text") = Some (VInt n) /\ n <> 0%Z
        /\ truth c = true /\ truth v = true
        /\ int_of_value c = Some chapter /\ (1 <= chapter <= 18)%Z
        /\ int_of_value v = Some verse /\ (1 <= verse)%Z).
Proof.
  unfold validate_verse_data, required_fields.
  cbn [map existsb]. unfold missing_or_empty.
  split; split.
  - (* a verdict of True shows a good record *)
    destruct (get verse_data (lit "chapter")) as [c|]; [|discriminate].
    destruct (get verse_data (lit "verse")) as [v|];
      [|rewrite orb_true_r; discriminate].
    destruct (get verse_data (lit "text")) as [t|];
      [|rewrite !orb_true_r; discriminate].
    destruct (truth c), (truth v), (truth t); cbn [negb orb];
      try discriminate.
    destruct (int_of_value c) as [chapter|] eqn:Ec; [|discriminate].
    destruct (int_of_value v) as [verse|] eqn:Ev; [|discriminate].
    destruct (Z.ltb_spec chapter 1); [discriminate|].
    destruct (Z.ltb_spec 18 chapter); [discriminate|].
    destruct (Z.ltb_spec verse 1); [discriminate|]. cbn [orb].
    destruct t as [|n|s]; try discriminate.
    destruct (strip s) as [|x xs] eqn:Es; [discriminate|].
    intros _. exists c, v, s, chapter, verse.
    repeat split; auto; try lia. rewrite Es. discriminate.
  - (* a good record gets True *)
    intros [c [v [s [chapter [verse
             [Hc [Hv [Ht [Ec [Hch [Ev [Hvs Hs]]]]]]]]]]]].
    rewrite Hc, Hv, Ht, Ec, Ev.
    rewrite (int_of_value_truth c chapter Ec) by lia.
    rewrite (int_of_value_truth v verse Ev Hvs).
    assert (Hts : truth (VStr s) = true).
    { destruct s; [|reflexivity]. exfalso. apply Hs. reflexivity. }
    rewrite Hts. cbn [negb orb].
    destruct (Z.ltb_spec chapter 1); [lia|].
    destruct (Z.ltb_spec 18 chapter); [lia|].
    destruct (Z.ltb_spec verse 1); [lia|]. cbn [orb].
    destruct (strip s); [congruence | reflexivity].
  - (* the call fails on a text that is a number *)
    destruct (get verse_data (lit "chapter")) as [c|]; [|discriminate].
    destruct (get verse_data (lit "verse")) as [v|];
      [|rewrite orb_true_r; discriminate].
    destruct (get verse_data (lit "text")) as [t|];
      [|rewrite !orb_true_r; discriminate].
    destruct (truth c) eqn:Tc, (truth v) eqn:Tv, (truth t) eqn:Tt;
      cbn [negb orb]; try discriminate.
    destruct (int_of_value c) as [chapter|] eqn:Ec; [|discriminate].
    destruct (int_of_value v) as [verse|] eqn:Ev; [|discriminate].
    destruct (Z.ltb_spec chapter 1); [discriminate|].
    destruct (Z.ltb_spec 18 chapter); [discriminate|].
    destruct (Z.ltb_spec verse 1); [discriminate|]. cbn [orb].
    destruct t as [|n|s]; [discriminate Tt | |].
    + intros _. exists c, v, n, chapter, verse.
      cbn [truth] in Tt. apply negb_true_iff, Z.eqb_neq in Tt.
      repeat split; auto; lia.
    + destruct (strip s); discriminate.
  - intros [c [v [n [chapter [verse
             [Hc [Hv [Ht [Hn [Tc [Tv [Ec [Hch [Ev Hvs]]]]]]]]]]]]]].
    rewrite Hc, Hv, Ht, Ec, Ev, Tc, Tv.
    assert (Htn : truth (VInt n) = true).
    { cbn [truth]. apply negb_true_iff, Z.eqb_neq, Hn. }
    rewrite Htn. cbn [negb orb].
    destruct (Z.ltb_spec chapter 1); [lia|].
    destruct (Z.ltb_spec 18 chapter); [lia|].
    destruct (Z.ltb_spec verse 1); [lia|]. reflexivity.
Qed.

End DatasetRecords.

(** ** Loading the verses *)

Section Loading.

Import Schema Indexer.

Lemma clean_field_printable (v : value) (s : str) :
  clean_field v = Done s -> Forall (fun c => printable c = true) s.
Proof.
  destruct v as [|n|t]; cbn [clean_field].
  - intros H. injection H as <-. constructor.
  - destruct (n =? 0)%Z; [|discriminate].
    intros H. injection H as <-. constructor.
  - intros H. injection H as <-. apply clean_text_printable.
Qed.

Lemma load_row_well_built (row : dict value) (d : Doc) :
  load_row row = Appended d -> well_built d.
Proof.
  unfold load_row.
  destruct (negb (has (normalize_schema row) (lit "chapter"))
            || negb (has (normalize_schema row) (lit "verse")));
    [discriminate|].
  destruct (negb (has (normalize_schema row) (lit "english"))
            && negb (has (normalize_schema row) (lit "hindi")));
    [discriminate|].
  destruct (int_field _) as [chapter|e]; [|discriminate].
  destruct (int_field _) as [verse_num|e]; [|discriminate].
  destruct (clean_field (get_or _ (lit "english") _)) as [body|e] eqn:Eb;
    [|discriminate].
  destruct body as [|b0 body]; [discriminate|].
  pose proof (clean_field_printable _ _ Eb) as Hb.
  destruct (truth _).
  - destruct (clean_field (get_or _ (lit "sanskrit") _))
      as [original|e] eqn:Eo; [|discriminate].
    pose proof (clean_field_printable _ _ Eo) as Ho.
    intros H. injection H as <-. split; [reflexivity|].
    exists (b0 :: body). split; [discriminate|]. split; [exact Hb|].
    right. exists original. cbn [doc_text doc_sanskrit doc_chapter doc_verse].
    repeat split; auto.
  - intros H. injection H as <-. split; [reflexivity|].
    exists (b0 :: body). split; [discriminate|]. split; [exact Hb|].
    left. cbn [doc_text doc_sanskrit doc_chapter doc_verse].
    repeat split; auto.
Qed.

Lemma load_rows_well_built (data : list (dict value)) (verses : list Doc) :
  load_rows data = Done verses ->
  Forall well_built verses /\ length verses <= length data.
Proof.
  revert verses; induction data as [|row rest IH]; intros verses;
    cbn [load_rows].
  - intros H. injection H as <-. split; [constructor | reflexivity].
  - destruct (load_row row) as [|d|e] eqn:Er; [| |discriminate].
    + intros H. destruct (IH verses H) as [H1 H2].
      split; [exact H1 | cbn [length]; lia].
    + destruct (load_rows rest) as [vs|e]; [|discriminate].
      intros H. injection H as <-. destruct (IH vs eq_refl) as [H1 H2].
      split; [|cbn [length]; lia].
      constructor; [eapply load_row_well_built; eauto | exact H1].
Qed.

(** X24.  Every verse that [load_dataset] keeps is well built: its id
    is [create_verse_id] of its chapter and verse, and its text is the
    heading "Chapter c, Verse v", the cleaned Sanskrit when the record
    has one, a blank line and the cleaned translation; the translation
    is not empty and both cleaned parts hold printable characters only.
    An empty cleaned Sanskrit is stored as [None].  No more verses are
    kept than there are rows. *)
Theorem load_dataset_well_built (data : list (dict value))
  (verses : list Doc) :
  load_rows data = Done verses ->
  Forall well_built verses /\ length verses <= length data.
Proof. apply load_rows_well_built. Qed.

Lemma scan_docs_some (ds : list Doc) (c v : Z) (r : SearchResult) :
  scan_docs ds c v = Some r ->
  exists d, In d ds /\ doc_chapter d = c /\ doc_verse d = v
            /\ r = result_of d 1 1.
Proof.
  induction ds as [|d0 ds IH]; cbn [scan_docs]; [discriminate|].
  destruct ((doc_chapter d0 =? c)%Z && (doc_verse d0 =? v)%Z) eqn:E.
  - apply andb_true_iff in E as [Ec Ev]. apply Z.eqb_eq in Ec, Ev.
    intros H. injection H as <-. exists d0. cbn [In]. auto.
  - intros H. destruct (IH H) as [d [Hin Hd]]. exists d. cbn [In]. auto.
Qed.

(** X25.  In a corpus loaded by [load_dataset], the verse that
    [get_verse_by_citation] finds for a chapter and a verse carries the
    id [create_verse_id] of that chapter and verse. *)
Theorem loaded_lookup_id (data : list (dict value)) (docs : list Doc)
  (c v : Z) (r : SearchResult) :
  load_rows data = Done docs ->
  get_verse_by_citation docs c v = Some r ->
  id r = create_verse_id c v /\ chapter r = c /\ verse r = v.
Proof.
  intros Hload Hr. unfold get_verse_by_citation in Hr.
  destruct (scan_docs_some docs c v r Hr) as [d [Hin [Hc [Hv ->]]]].
  destruct (load_rows_well_built data docs Hload) as [Hall _].
  rewrite Forall_forall in Hall. destruct (Hall d Hin) as [Hid _].
  cbn [id chapter verse result_of]. rewrite Hid, Hc, Hv. auto.
Qed.

(** X26.  The Hindi text stands in for the translation only when the
    record has no English field at all: a record whose English field is
    present but empty (or [None], or 0) is never kept, even when it has
    a Hindi text. *)
Theorem empty_english_drops_row (row : dict value) (e : value) :
  get (normalize_schema row) (lit "english") = Some e ->
  truth e = false ->
  forall d, load_row row <> Appended d.
Proof.
  intros He Ht d. unfold load_row.
  destruct (negb (has (normalize_schema row) (lit "chapter"))
            || negb (has (normalize_schema row) (lit "verse")));
    [discriminate|].
  destruct (negb (has (normalize_schema row) (lit "english"))
            && negb (has (normalize_schema row) (lit "hindi")));
    [discriminate|].
  destruct (int_field _) as [chapter|x]; [|discriminate].
  destruct (int_field _) as [verse_num|x]; [|discriminate].
  unfold get_or at 1. rewrite He.
  destruct e as [|n|s]; cbn [truth clean_field] in *.
  - discriminate.
  - apply negb_false_iff in Ht. rewrite Ht. discriminate.
  - destruct s; [discriminate | discriminate Ht].
Qed.

End Loading.

(** ** The properties above on sample data *)

(** A chapter written behind the separator U+001C is no number for
    [int], so the record is not valid. *)
Lemma validate_verse_data_separator :
  Schema.validate_verse_data
    [(lit "chapter", Schema.VStr (ascii_of_N 28 :: lit "3"));
     (lit "verse", Schema.VInt 1);
     (lit "text", Schema.VStr (lit "Do your duty."))]
  = Schema.Returns false.
Proof. vm_compute. reflexivity. Qed.

Lemma search_results_show_hits_witness :
  Forall (shows_hit small_corpus (tied_index (lit "duty")) 1)
    [result_of verse_2_47 (1 # 2)%Q 1; result_of verse_3_1 (1 # 2)%Q 2].
Proof.
  apply (search_results_show_hits small_corpus tied_index (lit "duty") None).
  vm_compute. reflexivity.
Defined.

Lemma search_ranks_increase_witness :
  StronglySorted Z.lt
    (map rank [result_of verse_2_47 (1 # 2)%Q 1;
               result_of verse_3_1 (1 # 2)%Q 2])
  /\ Forall (fun r => (1 <= rank r)%Z)
       [result_of verse_2_47 (1 # 2)%Q 1; result_of verse_3_1 (1 # 2)%Q 2].
Proof.
  apply (search_ranks_increase small_corpus tied_index (lit "duty") None).
  vm_compute. reflexivity.
Defined.

Lemma search_limit_witness :
  search small_corpus tied_index (lit "duty") (Some 1%Z)
  = Ok [result_of verse_2_47 (1 # 2)%Q 1]
  /\ search small_corpus tied_index (lit "duty") (Some (-1)%Z)
     = Ok [result_of verse_2_47 (1 # 2)%Q 1].
Proof.
  split.
  - apply (proj1 (search_limit small_corpus tied_index (lit "duty") 1
                    [result_of verse_2_47 (1 # 2)%Q 1;
                     result_of verse_3_1 (1 # 2)%Q 2]
                    ltac:(vm_compute; reflexivity))).
  - apply (proj1 (search_limit small_corpus tied_index (lit "duty") (-1)
                    [result_of verse_2_47 (1 # 2)%Q 1;
                     result_of verse_3_1 (1 # 2)%Q 2]
                    ltac:(vm_compute; reflexivity))).
Defined.

Lemma best_answer_is_best_witness :
  search_best_answer small_corpus tied_index (lit "duty") = Ok (Some tied_best)
  /\ (score_floor <= confidence tied_best)%Q.
Proof.
  assert (H : search_best_answer small_corpus tied_index (lit "duty")
              = Ok (Some tied_best)) by (vm_compute; reflexivity).
  split; [exact H|].
  apply (proj1 (best_answer_is_best small_corpus tied_index (lit "duty")
                  tied_best (tied_index_well_formed (lit "duty"))
                  (tied_index_descending (lit "duty")) H)).
Defined.

Lemma safety_check_extension_witness :
  safety_check (lit "medicine") = false
  /\ safety_check (lit "What " ++ lit "medicine" ++ lit " should I take?")
     = false.
Proof.
  split; [reflexivity|].
  apply (safety_check_extension (lit "What ") (lit "medicine")
           (lit " should I take?")).
  reflexivity.
Defined.

Lemma process_query_returns_witness :
  exists answer sources,
    App.process_query small_corpus tied_index unavailable unavailable
      unavailable (lit "What medicine should I take?") (lit "extractive") 3
    = Ok (answer, sources)
    /\ answer <> []
    /\ length sources <= 5
    /\ (safety_check (lit "What medicine should I take?") = false ->
        answer = App.deflection_message /\ sources = []).
Proof.
  apply (process_query_returns small_corpus tied_index unavailable
           unavailable unavailable (lit "What medicine should I take?")
           (lit "extractive") 3).
  apply tied_index_well_formed.
Defined.

Lemma process_query_cites_sources_witness :
  valid (validate_answer
           (extractive_answer (lit "duty") [result_of verse_2_47 (1 # 2)%Q 1])
           [result_of verse_2_47 (1 # 2)%Q 1;
            result_of verse_3_1 (1 # 2)%Q 2]) = true.
Proof.
  apply (process_query_cites_sources small_corpus tied_index unavailable
           unavailable unavailable (lit "duty") (lit "extractive") 3).
  - lia.
  - intros backend H. vm_compute in H. discriminate H.
  - vm_compute. reflexivity.
Defined.

Lemma load_dataset_well_built_witness :
  Forall well_built [sample_verse]
  /\ length [sample_verse] <= length [sample_row; empty_english_row].
Proof.
  apply (load_dataset_well_built [sample_row; empty_english_row]).
  vm_compute. reflexivity.
Defined.

Lemma loaded_lookup_id_witness :
  id (result_of sample_verse 1 1) = Schema.create_verse_id 2 47
  /\ chapter (result_of sample_verse 1 1) = 2%Z
  /\ verse (result_of sample_verse 1 1) = 47%Z.
Proof.
  apply (loaded_lookup_id [sample_row; empty_english_row] [sample_verse]).
  - vm_compute. reflexivity.
  - vm_compute. reflexivity.
Defined.

Lemma empty_english_drops_row_witness :
  Indexer.load_row empty_english_row <> Indexer.Appended verse_3_1.
Proof.
  apply (empty_english_drops_row empty_english_row (Schema.VStr [])).
  - vm_compute. reflexivity.
  - reflexivity.
Defined.
